(** * webargs.core: argument specifications and multi-target resolution

    A shallow embedding of [src/webargs/core.py] (classes [Arg] and
    [Parser] and the error hierarchy) together with the properties of the
    resolution engine that the specification states.

    Python values are a small universe [pyval]; exceptions are the
    inductive type [exn]; code that may raise returns [result]; code that
    calls into the adapter (fetch capabilities, fallback, error handlers)
    runs in the logging monad [M], whose log records every such call. *)

From Stdlib Require Import ZArith.
From stdpp Require Import base option list strings gmap.

Set Warnings "-register-all".
Open Scope string_scope.

(** ** Python values *)

(** The values that flow through the parser.  [VObj] stands for an instance
    of any other class (default truthiness and identity hashing). *)
Inductive pyval : Type :=
| VNone
| VBool (b : bool)
| VInt (n : Z)
| VStr (s : string)
| VList (xs : list pyval)
| VSet (xs : list pyval)
| VObj (id : nat).

(** [bool(v)]: the test behind [if v], [not v] and [v or w]. *)
Definition truthy (v : pyval) : bool :=
  match v with
  | VNone => false
  | VBool b => b
  | VInt n => negb (n =? 0)%Z
  | VStr s => negb (String.eqb s "")
  | VList xs | VSet xs => match xs with [] => false | _ :: _ => true end
  | VObj _ => true
  end.

(** [v is None] *)
Definition is_None (v : pyval) : bool :=
  match v with VNone => true | _ => false end.

(** [isinstance(v, list) and len(v)] *)
Definition nonempty_list (v : pyval) : bool :=
  match v with VList (_ :: _) => true | _ => false end.

(** Lists and sets have no [__hash__]; everything else here does. *)
Definition hashable (v : pyval) : bool :=
  match v with
  | VList _ | VSet _ => false
  | _ => true
  end.

(** [x == y] on hashable values.  [bool] is a subclass of [int], so
    [True == 1] and [False == 0]; objects compare by identity. *)
Definition hash_eqb (x y : pyval) : bool :=
  match x, y with
  | VNone, VNone => true
  | VBool a, VBool b => Bool.eqb a b
  | VInt a, VInt b => (a =? b)%Z
  | VBool a, VInt b | VInt b, VBool a => ((if a then 1 else 0) =? b)%Z
  | VStr a, VStr b => String.eqb a b
  | VObj a, VObj b => Nat.eqb a b
  | _, _ => false
  end.

(** ** Exceptions *)

(** The error classes of [core.py], in source order, followed by the
    built-in [TypeError] the code can run into and a catch-all for whatever
    else a user callable raises.  Every constructor is an [Exception], the
    class that the [except] clauses of [core.py] catch. *)
Inductive exn : Type :=
| InternalValidationError (underlying_exception : exn)
| InternalConversionError (underlying_exception : exn)
| InternalInvalidArg
| ValidationError (underlying_exception : exn) (arg : string)
| ConversionError (underlying_exception : exn) (arg : string)
| InvalidArg (arg : string)
| MissingArg (arg : string)
| WebargsValueError (arg : pyval) (msg : pyval)
| TypeError (msg : string)
| UserException (tag : string).

Inductive result (A : Type) : Type :=
| Ok (a : A)
| Raise (e : exn).
Arguments Ok {A} a.
Arguments Raise {A} e.

#[global] Instance result_ret : MRet result := fun A a => Ok a.
#[global] Instance result_bind : MBind result := fun A B f r =>
  match r with
  | Ok a => f a
  | Raise e => Raise e
  end.

#[global] Instance result_fmap : FMap result := fun A B f r =>
  match r with
  | Ok a => Ok (f a)
  | Raise e => Raise e
  end.

(** The name-less errors raised inside [Arg]. *)
Definition is_internal (e : exn) : bool :=
  match e with
  | InternalValidationError _ | InternalConversionError _
  | InternalInvalidArg => true
  | _ => false
  end.

(** Calling the class [WebargsValueError]: its [__init__(self, arg, msg)]
    takes exactly two arguments, any other count is a [TypeError]. *)
Definition new_WebargsValueError (args : list pyval) : result exn :=
  match args with
  | [arg; msg] => Ok (WebargsValueError arg msg)
  | [] => Raise (TypeError
      "__init__() missing 2 required positional arguments: 'arg' and 'msg'")
  | [_] => Raise (TypeError
      "__init__() missing 1 required positional argument: 'msg'")
  | _ => Raise (TypeError
      "__init__() takes 3 positional arguments but more were given")
  end.

(** [raise cls(args)]: the instance is built first, then raised. *)
Definition raise_new {A} (cls : list pyval -> result exn) (args : list pyval)
  : result A :=
  match cls args with
  | Ok e => Raise e
  | Raise e => Raise e
  end.

(** ** Containers *)

Inductive container : Type := list_ | set_.

(** [s.add(x)]: an element equal to one already present is dropped. *)
Definition set_add (s : list pyval) (x : pyval) : list pyval :=
  if existsb (hash_eqb x) s then s else (s ++ [x])%list.

(** [set(xs)]: elements are hashed one by one. *)
Definition py_set (xs : list pyval) : result pyval :=
  if forallb hashable xs
  then Ok (VSet (foldl set_add [] xs))
  else Raise (TypeError "unhashable type").

(** [multiple(xs)] and [multiple()] for [multiple] in [(list, set)]. *)
Definition construct (k : container) (xs : list pyval) : result pyval :=
  match k with
  | list_ => Ok (VList xs)
  | set_ => py_set xs
  end.

Definition empty_container (k : container) : pyval :=
  match k with
  | list_ => VList []
  | set_ => VSet []
  end.

(** ** Arg *)

(** A Python callable of one argument: returns or raises. *)
Definition callable : Type := pyval -> result pyval.

Definition noop : callable := fun x => Ok x.

Record Arg : Type := mkArg {
  convert : callable;
  default : pyval;
  required : bool;
  validate : callable;
  multiple : option container;
  allow_missing : bool;
  target : option string
}.

Definition dquote : string := String (Ascii.ascii_of_nat 34) "".

(** [Arg.__init__].  [convert] and [validate] are [None] or a callable and
    [multiple] is [list], [set] or [None] by typing, so the two
    [WebargsValueError]s for other arguments cannot arise here. *)
Definition Arg_init (convert : option callable) (default : pyval)
    (required : bool) (validate : option callable)
    (multiple : option container) (allow_missing : bool)
    (target : option string) : result Arg :=
  let convert := from_option id noop convert in
  let validate := from_option id (fun _ => Ok (VBool true)) validate in
  let default :=
    match multiple with
    | Some k => if is_None default then empty_container k else default
    | None => default
    end in
  if required && allow_missing
  then raise_new new_WebargsValueError
         [VNone; VStr (dquote ++ "required" ++ dquote ++ " and " ++ dquote
                       ++ "allow_missing" ++ dquote
                       ++ " cannot both be True.")]
  else Ok (mkArg convert default required validate multiple allow_missing
             target).

(** [Arg._validate]: conversion, then validation. *)
Definition _validate (self : Arg) (value : pyval) : result pyval :=
  match convert self value with
  | Raise e => Raise (InternalConversionError e)
  | Ok ret =>
      match validate self ret with
      | Raise e => Raise (InternalValidationError e)
      | Ok validated =>
          if truthy validated then Ok ret else Raise InternalInvalidArg
      end
  end.

(** [Arg.validated] *)
Definition validated (self : Arg) (value : pyval) : result pyval :=
  match multiple self, value with
  | Some k, VList xs => each ← mapM (_validate self) xs; construct k each
  | _, _ => _validate self value
  end.

(** ** The logging monad *)

(** What the parser asks of its collaborators.  Each call of a fetch
    capability, of the fallback and of an error handler leaves one entry. *)
Inductive event : Type :=
| EvFetch (target name : string)
| EvFallback (name : string)
| EvErrorCallback (error : exn)
| EvHandleError (error : exn).

Definition M (A : Type) : Type := (list event * result A)%type.

#[global] Instance M_ret : MRet M := fun A a => ([], Ok a).
#[global] Instance M_bind : MBind M := fun A B f m =>
  match m with
  | (log, Ok a) => let '(log', r) := f a in ((log ++ log')%list, r)
  | (log, Raise e) => (log, Raise e)
  end.

(** A computation that calls nobody. *)
Definition lift {A} (r : result A) : M A := ([], r).

(** One logged call of a collaborator. *)
Definition call {A} (ev : event) (r : result A) : M A := ([ev], r).

(** [try: m  except Exception as error: h error] *)
Definition try_except {A} (m : M A) (h : exn -> M A) : M A :=
  match m with
  | (log, Ok a) => (log, Ok a)
  | (log, Raise error) => let '(log', r) := h error in ((log ++ log')%list, r)
  end.

(** Leaving a loop body: [return ret], or on to the next round with the
    current binding of the loop's variable. *)
Inductive flow : Type :=
| Return (ret : pyval)
| Next (value : pyval).

(** ** Parser *)

Section Parser.

(** The request object is opaque to the core: it is only handed on. *)
Context {Request : Type}.

(** A fetch capability [(req, name, arg) -> value | None]; it may raise. *)
Definition capability : Type := Request -> string -> Arg -> result pyval.

(** The six methods a [TARGET_MAP] entry can name. *)
Inductive method : Type :=
| parse_json_ | parse_querystring_ | parse_form_
| parse_headers_ | parse_cookies_ | parse_files_.

(** A [TARGET_MAP] value: a method name, or a function registered with
    [target_handler]. *)
Inductive handler : Type :=
| Method (name : method)
| Function (func : capability).

(** A parser instance.  The overridable methods are fields.  [TARGET_MAP]
    is a class attribute, one dictionary for all instances; the field holds
    its content as the instance sees it at the time of the call. *)
Record Parser : Type := mkParser {
  targets : list string;
  error_callback : option (exn -> result pyval);
  TARGET_MAP : gmap string handler;
  parse_json : capability;
  parse_querystring : capability;
  parse_form : capability;
  parse_headers : capability;
  parse_cookies : capability;
  parse_files : capability;
  handle_error : exn -> result pyval;
  fallback : capability
}.

Definition DEFAULT_TARGETS : list string := ["querystring"; "form"; "json"].

Definition CLASS_TARGET_MAP : gmap string handler :=
  <["json" := Method parse_json_]>
  (<["querystring" := Method parse_querystring_]>
  (<["form" := Method parse_form_]>
  (<["headers" := Method parse_headers_]>
  (<["cookies" := Method parse_cookies_]>
  (<["files" := Method parse_files_]> ∅))))).

(** [targets or dflt] for a tuple of names or [None]. *)
Definition or_targets (targets' : option (list string)) (dflt : list string)
  : list string :=
  match targets' with
  | Some (t :: ts) => t :: ts
  | _ => dflt
  end.

(** The methods of the base class: every [parse_*] and [fallback] return
    [None], [handle_error] re-raises. *)
Definition returns_None : capability := fun _ _ _ => Ok VNone.

(** [Parser.__init__] on the base class. *)
Definition Parser_init (targets' : option (list string))
    (error_handler : option (exn -> result pyval)) : Parser :=
  {| targets := or_targets targets' DEFAULT_TARGETS;
     error_callback := error_handler;
     TARGET_MAP := CLASS_TARGET_MAP;
     parse_json := returns_None;
     parse_querystring := returns_None;
     parse_form := returns_None;
     parse_headers := returns_None;
     parse_cookies := returns_None;
     parse_files := returns_None;
     handle_error := fun error => Raise error;
     fallback := returns_None |}.

(** [getattr(self, func)] for a method name of [TARGET_MAP]. *)
Definition getattr (self : Parser) (func : method) : capability :=
  match func with
  | parse_json_ => parse_json self
  | parse_querystring_ => parse_querystring self
  | parse_form_ => parse_form self
  | parse_headers_ => parse_headers self
  | parse_cookies_ => parse_cookies self
  | parse_files_ => parse_files self
  end.

(** [Parser.target_handler(name)(func)] *)
Definition target_handler (self : Parser) (name : string) (func : capability)
  : Parser :=
  {| targets := targets self;
     error_callback := error_callback self;
     TARGET_MAP := <[name := Function func]> (TARGET_MAP self);
     parse_json := parse_json self;
     parse_querystring := parse_querystring self;
     parse_form := parse_form self;
     parse_headers := parse_headers self;
     parse_cookies := parse_cookies self;
     parse_files := parse_files self;
     handle_error := handle_error self;
     fallback := fallback self |}.

(** [Parser.error_handler(func)] *)
Definition error_handler (self : Parser) (func : exn -> result pyval)
  : Parser :=
  {| targets := targets self;
     error_callback := Some func;
     TARGET_MAP := TARGET_MAP self;
     parse_json := parse_json self;
     parse_querystring := parse_querystring self;
     parse_form := parse_form self;
     parse_headers := parse_headers self;
     parse_cookies := parse_cookies self;
     parse_files := parse_files self;
     handle_error := handle_error self;
     fallback := fallback self |}.

(** [str(list(names))] *)
Definition format_names (names : list string) : string :=
  "[" ++ String.concat ", " (map (fun s => "'" ++ s ++ "'") names) ++ "]".

(** [Parser._validated_targets].  The error is built with one argument. *)
Definition _validated_targets (self : Parser) (targets' : list string)
  : result (list string) :=
  let valid_targets : gset string := dom (TARGET_MAP self) in
  let given : gset string := list_to_set targets' in
  let invalid_targets := given ∖ valid_targets in
  if negb (size invalid_targets =? 0)%nat
  then
    let msg := "Invalid targets arguments: "
               ++ format_names (elements invalid_targets) in
    raise_new new_WebargsValueError [VStr msg]
  else Ok targets'.

(** [Parser._get_value].  An entry of [TARGET_MAP] is a method name or a
    function, so [if func] fails for unregistered targets only. *)
Definition _get_value (self : Parser) (name : string) (argobj : Arg)
    (req : Request) (target : string) : M pyval :=
  match TARGET_MAP self !! target with
  | Some func =>
      let function :=
        match func with
        | Function f => f
        | Method m => getattr self m
        end in
      call (EvFetch target name) (function req name argobj)
  | None => mret VNone
  end.

(** The [try: ret = argobj.validated(value) except ...] block of
    [parse_arg]: the name is attached to the internal errors. *)
Definition try_validated (name : string) (argobj : Arg) (value : pyval)
  : result pyval :=
  match validated argobj value with
  | Raise (InternalConversionError e) => Raise (ConversionError e name)
  | Raise (InternalValidationError e) => Raise (ValidationError e name)
  | Raise InternalInvalidArg => Raise (InvalidArg name)
  | r => r
  end.

(** [if argobj.target]: the target when it is set to a non-empty name. *)
Definition pinned_target (argobj : Arg) : option string :=
  match target argobj with
  | Some t => if String.eqb t "" then None else Some t
  | None => None
  end.

(** The [for target in ...] loop of [parse_arg]; [value] is the binding of
    the variable [value] on entry. *)
Fixpoint scan (self : Parser) (name : string) (argobj : Arg) (req : Request)
    (ts : list string) (value : pyval) : M flow :=
  match ts with
  | [] => mret (Next value)
  | target :: ts =>
      value ← _get_value self name argobj req target;
      if bool_decide (is_Some (multiple argobj)) && negb (nonempty_list value)
      then scan self name argobj req ts value
      else if negb (is_None value)
      then ret ← lift (try_validated name argobj value); mret (Return ret)
      else scan self name argobj req ts value
  end.

(** Lines 264-271 of [parse_arg], run when the loop is left without a
    [return]; [value] is what the variable holds at that point. *)
Definition default_step (self : Parser) (name : string) (argobj : Arg)
    (req : Request) (value : pyval) : M pyval :=
  if is_None value
  then
    value ←
      (if negb (is_None (default argobj))
       then mret (default argobj)
       else call (EvFallback name) (fallback self req name argobj));
    if negb (truthy value) && required argobj
    then lift (Raise (MissingArg name))
    else mret value
  else mret value.

(** Lines 237-248 of [parse_arg]: the lookup at [argobj.target]. *)
Definition pinned_lookup (self : Parser) (name : string) (argobj : Arg)
    (req : Request) (value : pyval) : M flow :=
  match pinned_target argobj with
  | Some target =>
      value ← _get_value self name argobj req target;
      if negb (is_None value)
      then ret ← lift (try_validated name argobj value); mret (Return ret)
      else mret (Next value)
  | None => mret (Next value)
  end.

(** [Parser.parse_arg] *)
Definition parse_arg (self : Parser) (name : string) (argobj : Arg)
    (req : Request) (targets' : option (list string)) : M pyval :=
  let value := VNone in
  pinned ← pinned_lookup self name argobj req value;
  match pinned with
  | Return ret => mret ret
  | Next value =>
      ts ← lift (_validated_targets self (or_targets targets' (targets self)));
      found ← scan self name argobj req ts value;
      match found with
      | Return ret => mret ret
      | Next value => default_step self name argobj req value
      end
  end.

(** The [for argname, argobj in iteritems(argmap)] loop of [parse];
    [argmap] is given in iteration order. *)
Fixpoint parse_items (self : Parser) (items : list (string * Arg))
    (req : Request) (targets' : option (list string))
    (parsed : gmap string pyval) : M (gmap string pyval) :=
  match items with
  | [] => mret parsed
  | (argname, argobj) :: items =>
      parsed_value ←
        parse_arg self argname argobj req
          (Some (or_targets targets' (targets self)));
      if is_None parsed_value && allow_missing argobj
      then parse_items self items req targets' parsed
      else parse_items self items req targets'
             (<[argname := parsed_value]> parsed)
  end.

(** [Parser.parse]: a dictionary, or [None] when a handler returned. *)
Definition parse (self : Parser) (argmap : list (string * Arg))
    (req : Request) (targets' : option (list string))
  : M (option (gmap string pyval)) :=
  try_except
    (parsed ← parse_items self argmap req targets' ∅; mret (Some parsed))
    (fun error =>
       match error_callback self with
       | Some callback =>
           _ ← call (EvErrorCallback error) (callback error); mret None
       | None =>
           _ ← call (EvHandleError error) (handle_error self error); mret None
       end).

End Parser.

Arguments Parser : clear implicits.
Arguments capability : clear implicits.
Arguments handler : clear implicits.

(** ** Vocabulary of the properties *)

Section Vocabulary.

Context {Request : Type}.
Implicit Types (self : Parser Request) (argobj : Arg) (req : Request).
Implicit Types (name t : string) (v : pyval).

(** The target has an entry in [TARGET_MAP]. *)
Definition registered self t : Prop := is_Some (TARGET_MAP self !! t).

(** The fetch capability of target [t] is called and returns [v]. *)
Definition fetches self name argobj req t v : Prop :=
  _get_value self name argobj req t = ([EvFetch t name], Ok v).

(** A fetched value that ends the scan: not skipped by the multiplicity
    test of line 251 and not [None]. *)
Definition usable argobj v : bool :=
  negb (bool_decide (is_Some (multiple argobj)) && negb (nonempty_list v))
  && negb (is_None v).

(** Target [t] is queried and yields nothing usable. *)
Definition misses self name argobj req t : Prop :=
  exists u, fetches self name argobj req t u /\ usable argobj u = false.

(** The log of querying the targets [ts] in order, once each. *)
Definition fetch_log name (ts : list string) : list event :=
  map (fun t => EvFetch t name) ts.

(** Every fetch recorded in the log went to target [t]. *)
Definition queries_only t (log : list event) : Prop :=
  forall t' name, EvFetch t' name ∈ log -> t' = t.

(** The lookup at the pinned target, if there is one, comes back with
    [None], leaving the log [log0]. *)
Definition pinned_misses self name argobj req (log0 : list event) : Prop :=
  pinned_lookup self name argobj req VNone = (log0, Ok (Next VNone)).

(** [parse_arg] reaches [argobj.validated(v)] with a value [v] fetched from
    the request, having written [log] so far: at the pinned target, or at
    the first target of the scan that yields a usable value. *)
Inductive found self name argobj req (targets' : option (list string))
  : pyval -> list event -> Prop :=
| found_pinned t v :
    pinned_target argobj = Some t ->
    fetches self name argobj req t v ->
    is_None v = false ->
    found self name argobj req targets' v [EvFetch t name]
| found_scan log0 pre t post v :
    pinned_misses self name argobj req log0 ->
    or_targets targets' (targets self) = (pre ++ t :: post)%list ->
    Forall (registered self) post ->
    Forall (misses self name argobj req) pre ->
    fetches self name argobj req t v ->
    usable argobj v = true ->
    found self name argobj req targets' v
      (log0 ++ fetch_log name (pre ++ [t]))%list.

(** The value the default step settles on when it runs: the default if
    there is one, else what the fallback returns. *)
Definition final_value self name argobj req : result pyval :=
  if is_None (default argobj)
  then fallback self req name argobj
  else Ok (default argobj).

(** The log of the default step: the fallback is called only without a
    default. *)
Definition final_log name argobj : list event :=
  if is_None (default argobj) then [EvFallback name] else [].

(** The collaborators keep to their own errors: neither a fetch capability
    nor the fallback raises one of the internal classes of [core.py]. *)
Definition capabilities_external self name argobj req : Prop :=
  (forall t e, (_get_value self name argobj req t).2 = Raise e ->
               is_internal e = false)
  /\ (forall e, fallback self req name argobj = Raise e ->
                is_internal e = false).

(** The elements [validated] converts and validates one by one. *)
Definition elements_of argobj v : list pyval :=
  match multiple argobj, v with
  | Some _, VList xs => xs
  | _, _ => [v]
  end.

(** [x] converts to [y] and [y] passes validation. *)
Definition passes argobj (x y : pyval) : Prop :=
  convert argobj x = Ok y /\
  exists b, validate argobj y = Ok b /\ truthy b = true.

(** No two positions of [s] hold equal values. *)
Definition distinct (s : list pyval) : Prop :=
  forall i j x y, s !! i = Some x -> s !! j = Some y ->
                  hash_eqb x y = true -> i = j.

(** [x in s] for a set or list of hashable values. *)
Definition contains (s : list pyval) (x : pyval) : Prop :=
  exists y, y ∈ s /\ hash_eqb x y = true.

(** The container class of a value, if it is a list or a set. *)
Definition kind_of v : option container :=
  match v with
  | VList _ => Some list_
  | VSet _ => Some set_
  | _ => None
  end.

End Vocabulary.

(** ** Concrete parsers and arguments used in the examples *)

(** [Arg()] with all defaults. *)
Definition plain_Arg : Arg :=
  mkArg noop VNone false (fun _ => Ok (VBool true)) None false None.

(** A parser whose six locations are given as name-independent values. *)
Definition stub_Parser (querystring form json : pyval) : Parser unit :=
  {| targets := DEFAULT_TARGETS;
     error_callback := None;
     TARGET_MAP := CLASS_TARGET_MAP;
     parse_json := fun _ _ _ => Ok json;
     parse_querystring := fun _ _ _ => Ok querystring;
     parse_form := fun _ _ _ => Ok form;
     parse_headers := returns_None;
     parse_cookies := returns_None;
     parse_files := returns_None;
     handle_error := fun error => Raise error;
     fallback := returns_None |}.

(** [Arg(target='json')] *)
Definition pinned_Arg : Arg :=
  mkArg noop VNone false (fun _ => Ok (VBool true)) None false (Some "json").

(** A conversion that doubles integers and rejects everything else. *)
Definition double : callable := fun v =>
  match v with
  | VInt n => Ok (VInt (2 * n))
  | _ => Raise (UserException "ValueError")
  end.

(** A validator: positive integers pass, non-integers make it raise. *)
Definition positive : callable := fun v =>
  match v with
  | VInt n => Ok (VBool (0 <? n)%Z)
  | _ => Raise (TypeError "'<' not supported")
  end.

(** [Arg(double, validate=positive, multiple=...)] *)
Definition doubling_Arg (multiple : option container) : Arg :=
  mkArg double (from_option empty_container VNone multiple) false positive
    multiple false None.

(** [Arg(multiple=list, default=['x'])] and its required variant. *)
Definition list_Arg (required : bool) : Arg :=
  mkArg noop (VList [VStr "x"]) required (fun _ => Ok (VBool true))
    (Some list_) false None.

(** [Arg(required=True)] *)
Definition required_Arg : Arg :=
  mkArg noop VNone true (fun _ => Ok (VBool true)) None false None.

(** Three declared arguments, the second of which cannot convert text. *)
Definition sample_argmap : list (string * Arg) :=
  [("a", plain_Arg); ("b", doubling_Arg None); ("c", plain_Arg)].

(** An error callback that returns without raising. *)
Definition swallow : exn -> result pyval := fun _ => Ok VNone.

(** ** The rest of [core.py]: argument checks, [get_value], decorators *)

(** An object handed over where a callable is expected: a plain value, or
    something callable (a function, a class, an object with [__call__])
    given by what calling it does. *)
Inductive pyobj : Type :=
| Value (v : pyval)
| Callable (f : callable).

(** [_callable] *)
Definition _callable (obj : pyobj) : result pyobj :=
  match obj with
  | Value v =>
      if truthy v
      then raise_new new_WebargsValueError [v; VStr "%r is not callable."]
      else Ok obj
  | Callable _ => Ok obj
  end.

(** The callable in [_callable(obj) or dflt]; a plain value that comes out
    of [_callable] is falsy. *)
Definition callable_of (obj : pyobj) : option callable :=
  match obj with
  | Callable f => Some f
  | Value _ => None
  end.

(** What can be passed as [multiple]: one of the classes [list] and [set],
    or a plain value, [None] included. *)
Inductive multiple_arg : Type :=
| Mclass (k : container)
| Mvalue (v : pyval).

(** [if multiple not in (list, set, None): raise ...] *)
Definition checked_multiple (multiple : multiple_arg)
  : result (option container) :=
  match multiple with
  | Mclass k => Ok (Some k)
  | Mvalue VNone => Ok None
  | Mvalue v =>
      raise_new new_WebargsValueError
        [v; VStr "%r is not a list, set or None."]
  end.

(** [Arg.__init__] on arbitrary arguments: the two callable checks and the
    check of [multiple], then the part modelled by [Arg_init]. *)
Definition Arg_new (convert : pyobj) (default : pyval) (required : bool)
    (validate : pyobj) (multiple : multiple_arg) (allow_missing : bool)
    (target : option string) : result Arg :=
  convert ← _callable convert;
  validate ← _callable validate;
  multiple ← checked_multiple multiple;
  Arg_init (callable_of convert) default required (callable_of validate)
    multiple allow_missing target.

(** The container [d] that [get_value] reads: the attribute named by
    [method] (which must exist) and the optional methods [getlist] and
    [getall]. *)
Record source : Type := mkSource {
  lookup_method : string -> result pyval;
  getlist : option (string -> result pyval);
  getall : option (string -> result pyval)
}.

(** [get_value(d, name, multiple, method)] *)
Definition get_value (d : source) (name : string)
    (multiple : option container) : result pyval :=
  val ← lookup_method d name;
  match multiple with
  | Some _ =>
      match getlist d with
      | Some getlist => getlist name
      | None =>
          match getall d with
          | Some getall => getall name
          | None => Ok (VList [val])
          end
      end
  | None => Ok val
  end.

(** A plain [dict] read with [get]: [None] for a missing key, and neither
    [getlist] nor [getall]. *)
Definition dict_source (d : gmap string pyval) : source :=
  {| lookup_method := fun name => Ok (from_option id VNone (d !! name));
     getlist := None;
     getall := None |}.

(** [obj and not callable(obj)] *)
Definition rejected (obj : pyobj) : bool :=
  match obj with
  | Value v => truthy v
  | Callable _ => false
  end.

(** [multiple not in (list, set, None)] *)
Definition bad_multiple (multiple : multiple_arg) : bool :=
  match multiple with
  | Mclass _ | Mvalue VNone => false
  | Mvalue _ => true
  end.

(** A positional argument of a view function: one the caller passed, or the
    result of [parse] put in by the decorator. *)
Inductive posarg : Type :=
| Pos (v : pyval)
| Parsed (parsed_args : option (gmap string pyval)).

(** A view function, called with positional and keyword arguments. *)
Definition view : Type := list posarg -> gmap string pyval -> result pyval.

Section Decorators.

Context {Request : Type}.

(** [Parser.use_args(argmap, req, targets, as_kwargs)(func)]: the
    [wrapper] that the decorator returns, called with the positional
    arguments [args] and the keyword arguments [kwargs]. *)
Definition use_args (self : Parser Request) (argmap : list (string * Arg))
    (req : Request) (targets' : option (list string)) (as_kwargs : bool)
    (func : view) (args : list pyval) (kwargs : gmap string pyval)
  : M pyval :=
  let targets' := or_targets targets' DEFAULT_TARGETS in
  parsed_args ← parse self argmap req (Some targets');
  if as_kwargs
  then
    match parsed_args with
    | Some parsed => lift (func (Pos <$> args) (parsed ∪ kwargs))
    | None => lift (Raise (TypeError "'NoneType' object is not iterable"))
    end
  else
    match args with
    | first :: rest =>
        if truthy first
        then lift (func (Pos first :: Parsed parsed_args :: (Pos <$> rest))
                     kwargs)
        else lift (func (Parsed parsed_args :: (Pos <$> args)) kwargs)
    | [] => lift (func [Parsed parsed_args] kwargs)
    end.

(** [Parser.use_kwargs]: [use_args] with [as_kwargs] forced to [True]. *)
Definition use_kwargs (self : Parser Request) (argmap : list (string * Arg))
    (req : Request) (targets' : option (list string)) (as_kwargs : bool)
    (func : view) (args : list pyval) (kwargs : gmap string pyval)
  : M pyval :=
  let as_kwargs := true in
  use_args self argmap req targets' as_kwargs func args kwargs.

(** The same parser with another [targets] attribute. *)
Definition with_targets (self : Parser Request) (ts : list string)
  : Parser Request :=
  {| targets := ts;
     error_callback := error_callback self;
     TARGET_MAP := TARGET_MAP self;
     parse_json := parse_json self;
     parse_querystring := parse_querystring self;
     parse_form := parse_form self;
     parse_headers := parse_headers self;
     parse_cookies := parse_cookies self;
     parse_files := parse_files self;
     handle_error := handle_error self;
     fallback := fallback self |}.

(** The entries of a log that record calls of an error handler. *)
Definition is_handler_event (ev : event) : bool :=
  match ev with
  | EvErrorCallback _ | EvHandleError _ => true
  | _ => false
  end.

End Decorators.

(** A conversion that is idempotent: the absolute value of an integer. *)
Definition absolute : callable := fun v =>
  match v with
  | VInt n => Ok (VInt (Z.abs n))
  | _ => Raise (UserException "ValueError")
  end.

(** [Arg(absolute, multiple=...)] *)
Definition abs_Arg (multiple : option container) : Arg :=
  mkArg absolute (from_option empty_container VNone multiple) false
    (fun _ => Ok (VBool true)) multiple false None.

(** [Arg(allow_missing=True)] *)
Definition optional_Arg : Arg :=
  mkArg noop VNone false (fun _ => Ok (VBool true)) None true None.

(** [Arg(multiple=list, default=['x'], required=True, target='json')] *)
Definition pinned_list_Arg : Arg :=
  mkArg noop (VList [VStr "x"]) true (fun _ => Ok (VBool true))
    (Some list_) false (Some "json").

(** [Arg(target='nowhere')] *)
Definition misdirected_Arg : Arg :=
  mkArg noop VNone false (fun _ => Ok (VBool true)) None false
    (Some "nowhere").

(** A parser whose query string is a plain dictionary read with
    [get_value]; the other locations are empty. *)
Definition dict_Parser (querystring : gmap string pyval) : Parser unit :=
  {| targets := DEFAULT_TARGETS;
     error_callback := None;
     TARGET_MAP := CLASS_TARGET_MAP;
     parse_json := returns_None;
     parse_querystring := fun _ name arg =>
       get_value (dict_source querystring) name (multiple arg);
     parse_form := returns_None;
     parse_headers := returns_None;
     parse_cookies := returns_None;
     parse_files := returns_None;
     handle_error := fun error => Raise error;
     fallback := returns_None |}.

(** A view function that returns its keyword argument [a]. *)
Definition view_a : view := fun _ kwargs =>
  Ok (from_option id VNone (kwargs !! "a")).

(** A view function that tells at which position it got the parsed
    arguments. *)
Definition view_position : view := fun pos _ =>
  match pos with
  | Parsed _ :: _ => Ok (VInt 0)
  | _ :: Parsed _ :: _ => Ok (VInt 1)
  | _ => Ok VNone
  end.

(** ** The monad and the target check *)

Section Basics.

Context {Request : Type}.
Implicit Types (self : Parser Request) (argobj : Arg) (req : Request).
Implicit Types (name t : string) (v : pyval).

Lemma bind_ok {A B} (f : A -> M B) (log : list event) (a : A) :
  (mbind f ((log, Ok a) : M A)) = ((log ++ (f a).1)%list, (f a).2).
Proof. unfold mbind, M_bind. by destruct (f a). Qed.

Lemma bind_raise {A B} (f : A -> M B) (log : list event) (e : exn) :
  (mbind f ((log, Raise e) : M A)) = (log, Raise e).
Proof. reflexivity. Qed.

Lemma bind_lift_ok {A B} (f : A -> M B) (a : A) :
  mbind f (lift (Ok a)) = f a.
Proof. unfold lift. rewrite bind_ok. by destruct (f a). Qed.

Lemma bind_ret {A B} (f : A -> M B) (a : A) :
  mbind f (mret a : M A) = f a.
Proof. apply bind_lift_ok. Qed.

(** A sequence raises when its first part does, or when the rest does. *)
Lemma bind_raises {A B} (f : A -> M B) (m : M A) (e : exn) :
  (mbind f m).2 = Raise e ->
  m.2 = Raise e \/ exists a, m.2 = Ok a /\ (f a).2 = Raise e.
Proof.
  destruct m as [log [a|e']].
  - rewrite bind_ok. simpl. intros He. right. by exists a.
  - rewrite bind_raise. simpl. intros [= ->]. by left.
Qed.

(** The target check lets exactly the lists of registered names through. *)
Lemma validated_targets_ok self (ts : list string) :
  Forall (registered self) ts -> _validated_targets self ts = Ok ts.
Proof.
  intros Hreg. unfold _validated_targets.
  replace (list_to_set ts ∖ dom (TARGET_MAP self)) with (∅ : gset string).
  - reflexivity.
  - symmetry. apply leibniz_equiv. apply elem_of_equiv_empty. intros t.
    rewrite elem_of_difference, elem_of_list_to_set, elem_of_dom.
    intros [Hin Hno]. apply Hno.
    rewrite Forall_forall in Hreg. by apply Hreg.
Qed.

Lemma validated_targets_raises self (ts : list string) e :
  _validated_targets self ts = Raise e -> is_internal e = false.
Proof.
  unfold _validated_targets.
  cbv zeta. destruct (negb _); intros Hr; [|discriminate].
  unfold raise_new, new_WebargsValueError in Hr. by injection Hr as <-.
Qed.

(** Any other list makes the construction of the error itself fail. *)
Lemma validated_targets_invalid self (ts : list string) t :
  t ∈ ts -> TARGET_MAP self !! t = None ->
  _validated_targets self ts =
  Raise (TypeError "__init__() missing 1 required positional argument: 'msg'").
Proof.
  intros Hin Hno. unfold _validated_targets.
  destruct (size (list_to_set ts ∖ dom (TARGET_MAP self)) =? 0)%nat eqn:Hsize.
  - exfalso. apply Nat.eqb_eq, size_empty_iff in Hsize.
    apply (not_elem_of_empty (C := gset string) t), Hsize.
    rewrite elem_of_difference, elem_of_list_to_set, elem_of_dom.
    split; [done|]. rewrite Hno. by intros [? ?].
  - reflexivity.
Qed.

(** A name registered with [target_handler] is a valid target. *)
Lemma target_handler_registered self t (func : capability Request) :
  registered (target_handler self t func) t.
Proof. unfold registered. simpl. rewrite lookup_insert_eq. by eexists. Qed.

Lemma target_handler_keeps self t t' (func : capability Request) :
  registered self t' -> registered (target_handler self t func) t'.
Proof.
  unfold registered. simpl. intros Hreg.
  destruct (decide (t = t')) as [->|Hne].
  - rewrite lookup_insert_eq. by eexists.
  - by rewrite lookup_insert_ne.
Qed.

Lemma fetches_registered self name argobj req t v :
  fetches self name argobj req t v -> registered self t.
Proof.
  unfold fetches, _get_value, registered.
  destruct (TARGET_MAP self !! t); [by eexists|]. discriminate.
Qed.

End Basics.

(** ** The ordered scan *)

Section Scan.

Context {Request : Type}.
Implicit Types (self : Parser Request) (argobj : Arg) (req : Request).
Implicit Types (name t : string) (v : pyval).

Lemma usable_false_cases argobj u :
  usable argobj u = false ->
  bool_decide (is_Some (multiple argobj)) && negb (nonempty_list u) = true
  \/ (bool_decide (is_Some (multiple argobj)) && negb (nonempty_list u) = false
      /\ is_None u = true).
Proof.
  unfold usable.
  destruct (bool_decide _ && negb (nonempty_list u)); [by left|].
  destruct (is_None u); [by right | discriminate].
Qed.

Lemma usable_true_cases argobj v :
  usable argobj v = true ->
  bool_decide (is_Some (multiple argobj)) && negb (nonempty_list v) = false
  /\ is_None v = false.
Proof.
  unfold usable.
  destruct (bool_decide _ && negb (nonempty_list v)); [discriminate|].
  destruct (is_None v); [discriminate | done].
Qed.

(** One round of the loop. *)
Lemma scan_cons self name argobj req t ts value :
  scan self name argobj req (t :: ts) value =
  value ← _get_value self name argobj req t;
  if bool_decide (is_Some (multiple argobj)) && negb (nonempty_list value)
  then scan self name argobj req ts value
  else if negb (is_None value)
  then ret ← lift (try_validated name argobj value); mret (Return ret)
  else scan self name argobj req ts value.
Proof. reflexivity. Qed.

(** A target without a usable value: the loop moves on, and the variable
    [value] now holds what that target returned. *)
Lemma scan_miss self name argobj req t ts u value :
  fetches self name argobj req t u -> usable argobj u = false ->
  scan self name argobj req (t :: ts) value =
  (EvFetch t name :: (scan self name argobj req ts u).1,
   (scan self name argobj req ts u).2).
Proof.
  intros Hf Hu. simpl. rewrite Hf, bind_ok.
  destruct (usable_false_cases _ _ Hu) as [-> | [-> ->]]; reflexivity.
Qed.

(** A target with a usable value: the loop is left at once. *)
Lemma scan_hit self name argobj req t ts v value :
  fetches self name argobj req t v -> usable argobj v = true ->
  scan self name argobj req (t :: ts) value =
  ([EvFetch t name], Return <$> try_validated name argobj v).
Proof.
  intros Hf Hu. simpl. rewrite Hf, bind_ok.
  destruct (usable_true_cases _ _ Hu) as [-> ->]. simpl.
  unfold lift, mbind, M_bind, mret, M_ret, fmap.
  by destruct (try_validated name argobj v).
Qed.

(** Targets without a usable value in front do not change who wins. *)
Lemma scan_prefix self name argobj req pre ts :
  Forall (misses self name argobj req) pre ->
  forall value, exists value',
    scan self name argobj req (pre ++ ts) value =
    ((fetch_log name pre ++ (scan self name argobj req ts value').1)%list,
     (scan self name argobj req ts value').2).
Proof.
  induction 1 as [|t pre [u [Hf Hu]] _ IH]; intros value.
  - exists value. simpl. by destruct (scan self name argobj req ts value).
  - destruct (IH u) as [value' Heq]. exists value'.
    change ((t :: pre) ++ ts)%list with (t :: (pre ++ ts))%list.
    rewrite (scan_miss _ _ _ _ _ _ _ _ Hf Hu), Heq. reflexivity.
Qed.

(** When every target returns [None] the loop ends with [None]. *)
Lemma scan_all_None self name argobj req ts :
  Forall (fun t => fetches self name argobj req t VNone) ts ->
  forall value, is_None value = true ->
  scan self name argobj req ts value = (fetch_log name ts, Ok (Next VNone)).
Proof.
  induction 1 as [|t ts Hf _ IH]; intros value Hv.
  - destruct value; try discriminate. reflexivity.
  - rewrite (scan_miss _ _ _ _ _ _ VNone); [|done|].
    + by rewrite IH.
    + unfold usable. simpl. by rewrite andb_false_r.
Qed.

(** When the last target yields nothing usable either, the loop ends with
    whatever that last target returned. *)
Lemma scan_ends_on_last self name argobj req pre t u value :
  Forall (misses self name argobj req) pre ->
  fetches self name argobj req t u -> usable argobj u = false ->
  scan self name argobj req (pre ++ [t]) value =
  (fetch_log name (pre ++ [t]), Ok (Next u)).
Proof.
  intros Hpre Hf Hu.
  destruct (scan_prefix _ _ _ _ _ [t] Hpre value) as [value' ->].
  rewrite (scan_miss _ _ _ _ _ _ _ _ Hf Hu). simpl.
  unfold fetch_log. by rewrite map_app.
Qed.

(** [parse_arg] once the pinned lookup has come back empty-handed. *)
Lemma parse_arg_after_pinned self name argobj req targets' log0 ts :
  pinned_misses self name argobj req log0 ->
  or_targets targets' (targets self) = ts ->
  Forall (registered self) ts ->
  parse_arg self name argobj req targets' =
  let m := found ← scan self name argobj req ts VNone;
           match found with
           | Return ret => mret ret
           | Next value => default_step self name argobj req value
           end in
  ((log0 ++ m.1)%list, m.2).
Proof.
  intros Hpin Hts Hreg. unfold parse_arg. rewrite Hpin, bind_ok.
  cbv beta iota.
  rewrite Hts, (validated_targets_ok _ _ Hreg), bind_lift_ok. reflexivity.
Qed.

(** [parse_arg] on a value found on the request: nothing but conversion and
    validation stand between the fetched value and the caller. *)
Lemma parse_arg_found self name argobj req targets' v log :
  found self name argobj req targets' v log ->
  parse_arg self name argobj req targets' = (log, try_validated name argobj v).
Proof.
  destruct 1 as [t v Hpin Hf Hv | log0 pre t post v Hpin Hts Hpost Hpre Hf Hu].
  - unfold parse_arg, pinned_lookup. rewrite Hpin, Hf, bind_ok, Hv. simpl.
    unfold lift, mbind, M_bind, mret, M_ret.
    by destruct (try_validated name argobj v).
  - rewrite (parse_arg_after_pinned _ _ _ _ _ log0 (pre ++ t :: post) Hpin Hts).
    + destruct (scan_prefix _ _ _ _ _ (t :: post) Hpre VNone) as [value' ->].
      rewrite (scan_hit _ _ _ _ _ _ _ _ Hf Hu). simpl.
      unfold fetch_log. rewrite map_app. simpl.
      unfold mbind, M_bind, mret, M_ret, fmap.
      destruct (try_validated name argobj v); simpl;
        by rewrite ?app_nil_r.
    + apply Forall_app. split.
      * eapply Forall_impl; [exact Hpre|].
        intros t' [u [Hf' _]]. by eapply fetches_registered.
      * constructor; [by eapply fetches_registered | done].
Qed.

End Scan.

(** ** Pinned target, target check and first-match-wins *)

Section Resolution.

Context {Request : Type}.
Implicit Types (self : Parser Request) (argobj : Arg) (req : Request).
Implicit Types (name t : string) (v : pyval).

Lemma class_lookup_json :
  (CLASS_TARGET_MAP : gmap string (handler Request)) !! "json"
  = Some (Method parse_json_).
Proof. by vm_compute. Qed.

Lemma class_lookup_querystring :
  (CLASS_TARGET_MAP : gmap string (handler Request)) !! "querystring"
  = Some (Method parse_querystring_).
Proof. by vm_compute. Qed.

(** C1, as the code has it.  With a pinned target whose fetch returns a
    non-null value, [parse_arg] queries that target only: the value goes
    through conversion and validation and is returned, the requested
    targets are neither checked nor scanned.  When the pinned fetch comes
    back with [None], [parse_arg] carries on with the target check, the
    ordered scan and the default step, exactly as without a pinned
    target. *)
Theorem pinned_target_first self name argobj req targets' t :
  pinned_target argobj = Some t ->
  (forall v, fetches self name argobj req t v -> is_None v = false ->
     parse_arg self name argobj req targets'
       = ([EvFetch t name], try_validated name argobj v)
     /\ queries_only t (parse_arg self name argobj req targets').1)
  /\
  (forall log0, _get_value self name argobj req t = (log0, Ok VNone) ->
     parse_arg self name argobj req targets' =
     let m :=
       ts ← lift (_validated_targets self (or_targets targets' (targets self)));
       found ← scan self name argobj req ts VNone;
       match found with
       | Return ret => mret ret
       | Next value => default_step self name argobj req value
       end in
     ((log0 ++ m.1)%list, m.2)).
Proof.
  intros Hpin. split.
  - intros v Hf Hv.
    assert (Heq : parse_arg self name argobj req targets'
                  = ([EvFetch t name], try_validated name argobj v)).
    { apply parse_arg_found. by apply found_pinned. }
    split; [exact Heq|]. rewrite Heq. simpl.
    intros t' n Hin. apply list_elem_of_singleton in Hin. congruence.
  - intros log0 Hget. unfold parse_arg, pinned_lookup.
    rewrite Hpin, Hget, bind_ok. simpl. rewrite app_nil_r.
    destruct (_validated_targets self (or_targets targets' (targets self)))
      as [ts|e]; [|reflexivity].
    by destruct (mbind _ (scan self name argobj req ts VNone)).
Qed.

(** Without a pinned target, a requested name that is not registered stops
    [parse_arg] before anything is fetched; what is raised is the
    [TypeError] of the failed construction of the error object. *)
Lemma invalid_targets_TypeError self name argobj req targets' t :
  pinned_target argobj = None ->
  t ∈ or_targets targets' (targets self) ->
  TARGET_MAP self !! t = None ->
  parse_arg self name argobj req targets' =
  ([], Raise (TypeError
                "__init__() missing 1 required positional argument: 'msg'")).
Proof.
  intros Hpin Hin Hno. unfold parse_arg, pinned_lookup.
  rewrite Hpin, bind_ret.
  by rewrite (validated_targets_invalid _ _ _ Hin Hno).
Qed.

(** C3.  In the ordered scan the first target, in the given order, whose
    fetch returns a usable value wins: its value is converted, validated
    and returned, the targets before it were each queried once, and no
    target after it is queried at all. *)
Theorem first_usable_target_wins self name argobj req targets' pre t post v :
  pinned_target argobj = None ->
  or_targets targets' (targets self) = (pre ++ t :: post)%list ->
  Forall (registered self) post ->
  Forall (misses self name argobj req) pre ->
  fetches self name argobj req t v ->
  usable argobj v = true ->
  parse_arg self name argobj req targets'
    = (fetch_log name (pre ++ [t]), try_validated name argobj v)
  /\ forall t' n, EvFetch t' n ∈ (parse_arg self name argobj req targets').1 ->
                  t' ∈ (pre ++ [t])%list.
Proof.
  intros Hpin Hts Hpost Hpre Hf Hu.
  assert (Heq : parse_arg self name argobj req targets'
                = (fetch_log name (pre ++ [t]), try_validated name argobj v)).
  { apply (parse_arg_found _ _ _ _ _ _ ([] ++ fetch_log name (pre ++ [t]))%list).
    apply (found_scan _ _ _ _ _ [] pre t post v); try done.
    unfold pinned_misses, pinned_lookup. by rewrite Hpin. }
  split; [exact Heq|]. rewrite Heq. simpl. intros t' n Hin.
  unfold fetch_log in Hin. apply list_elem_of_fmap in Hin.
  destruct Hin as [t'' [Heq' Hin]]. by inversion Heq'; subst.
Qed.

(** With targets [(querystring, json)] and a value in the query string, the
    query string's value is returned and [parse_json] is not called. *)
Corollary querystring_before_json self name req vq :
  TARGET_MAP self = CLASS_TARGET_MAP ->
  parse_querystring self req name plain_Arg = Ok vq ->
  is_None vq = false ->
  parse_arg self name plain_Arg req (Some ["querystring"; "json"])
    = ([EvFetch "querystring" name], Ok vq).
Proof.
  intros Hmap Hq Hvq.
  assert (Hv : try_validated name plain_Arg vq = Ok vq) by by destruct vq.
  rewrite <- Hv.
  apply (parse_arg_found _ _ _ _ _ _ ([] ++ fetch_log name ([] ++ ["querystring"]))%list).
  apply (found_scan _ _ _ _ _ [] [] "querystring" ["json"] vq); try done.
  - repeat constructor. unfold registered.
    rewrite Hmap, class_lookup_json. by eexists.
  - unfold fetches, _get_value.
    rewrite Hmap, class_lookup_querystring. simpl. by rewrite Hq.
  - unfold usable. simpl. by rewrite Hvq.
Qed.

(** With the name absent from the query string, the json value is
    returned. *)
Corollary json_after_querystring self name req vj :
  TARGET_MAP self = CLASS_TARGET_MAP ->
  parse_querystring self req name plain_Arg = Ok VNone ->
  parse_json self req name plain_Arg = Ok vj ->
  is_None vj = false ->
  parse_arg self name plain_Arg req (Some ["querystring"; "json"])
    = ([EvFetch "querystring" name; EvFetch "json" name], Ok vj).
Proof.
  intros Hmap Hq Hj Hvj.
  assert (Hv : try_validated name plain_Arg vj = Ok vj) by by destruct vj.
  rewrite <- Hv.
  apply (parse_arg_found _ _ _ _ _ _
           ([] ++ fetch_log name (["querystring"] ++ ["json"]))%list).
  apply (found_scan _ _ _ _ _ [] ["querystring"] "json" [] vj); try done.
  - repeat constructor. exists VNone. split; [|done].
    unfold fetches, _get_value.
    rewrite Hmap, class_lookup_querystring. simpl. by rewrite Hq.
  - unfold fetches, _get_value.
    rewrite Hmap, class_lookup_json. simpl. by rewrite Hj.
  - unfold usable. simpl. by rewrite Hvj.
Qed.

End Resolution.

(** ** Conversion and validation *)

Section Validation.

Implicit Types (argobj : Arg) (x y v : pyval).

Lemma hash_eqb_sym x y : hash_eqb x y = hash_eqb y x.
Proof.
  destruct x, y; simpl; try reflexivity.
  - by destruct b, b0.
  - apply Z.eqb_sym.
  - apply String.eqb_sym.
  - apply Nat.eqb_sym.
Qed.

Lemma hash_eqb_refl x : hashable x = true -> hash_eqb x x = true.
Proof.
  destruct x; simpl; try discriminate; intros _.
  - reflexivity.
  - by destruct b.
  - apply Z.eqb_refl.
  - apply String.eqb_refl.
  - apply Nat.eqb_refl.
Qed.

Lemma set_add_subset s x z : z ∈ s -> z ∈ set_add s x.
Proof.
  unfold set_add. destruct (existsb (hash_eqb x) s); [done|].
  intros Hin. apply elem_of_app. by left.
Qed.

Lemma set_add_contains s x : hashable x = true -> contains (set_add s x) x.
Proof.
  intros Hx. unfold set_add, contains.
  destruct (existsb (hash_eqb x) s) eqn:Hex.
  - apply existsb_exists in Hex. destruct Hex as [y [Hin Heq]].
    exists y. split; [by apply list_elem_of_In | done].
  - exists x. split; [|by apply hash_eqb_refl].
    apply elem_of_app. right. by apply list_elem_of_singleton.
Qed.

Lemma set_add_origin s x z : z ∈ set_add s x -> z ∈ s \/ z = x.
Proof.
  unfold set_add. destruct (existsb (hash_eqb x) s); [by left|].
  intros Hin. apply elem_of_app in Hin. destruct Hin as [Hin|Hin]; [by left|].
  right. by apply list_elem_of_singleton in Hin.
Qed.

Lemma set_add_distinct s x : distinct s -> distinct (set_add s x).
Proof.
  unfold set_add. destruct (existsb (hash_eqb x) s) eqn:Hex; [done|].
  assert (Hnew : forall i z, s !! i = Some z -> hash_eqb x z = false).
  { intros i z Hi. destruct (hash_eqb x z) eqn:Heq; [|done].
    assert (Hin : In z s) by (apply list_elem_of_In; by eapply list_elem_of_lookup_2).
    assert (existsb (hash_eqb x) s = true) by (apply existsb_exists; eauto).
    congruence. }
  intros Hs i j a b Hi Hj Hab.
  destruct (decide (i < length s)) as [Hil|Hil];
    destruct (decide (j < length s)) as [Hjl|Hjl].
  - rewrite lookup_app_l in Hi, Hj by done. by eapply Hs.
  - rewrite lookup_app_l in Hi by done. rewrite lookup_app_r in Hj by lia.
    apply list_lookup_singleton_Some in Hj as [_ <-].
    rewrite hash_eqb_sym, (Hnew _ _ Hi) in Hab. discriminate.
  - rewrite lookup_app_l in Hj by done. rewrite lookup_app_r in Hi by lia.
    apply list_lookup_singleton_Some in Hi as [_ <-].
    rewrite (Hnew _ _ Hj) in Hab. discriminate.
  - rewrite lookup_app_r in Hi, Hj by lia.
    apply list_lookup_singleton_Some in Hi as [Hi _].
    apply list_lookup_singleton_Some in Hj as [Hj _]. lia.
Qed.

(** What [set(ys)] holds, for hashable [ys], whatever it held before. *)
Lemma foldl_set_add ys : forall s,
  Forall (fun y => hashable y = true) ys -> distinct s ->
  distinct (foldl set_add s ys)
  /\ (forall z, z ∈ s -> z ∈ foldl set_add s ys)
  /\ (forall y, y ∈ ys -> contains (foldl set_add s ys) y)
  /\ (forall z, z ∈ foldl set_add s ys -> z ∈ s \/ z ∈ ys).
Proof.
  induction ys as [|y ys IH]; intros s Hh Hs; simpl.
  - repeat split; try done.
    + intros y Hin. by apply elem_of_nil in Hin.
    + intros z Hin. by left.
  - inversion Hh as [|? ? Hy Hys]; subst.
    destruct (IH (set_add s y) Hys (set_add_distinct _ _ Hs))
      as (Hd & Hsub & Hall & Horig).
    repeat split; try done.
    + intros z Hin. by apply Hsub, set_add_subset.
    + intros y' Hin. apply elem_of_cons in Hin as [->|Hin]; [|by apply Hall].
      destruct (set_add_contains s y Hy) as [z [Hz Heq]].
      exists z. split; [by apply Hsub | done].
    + intros z Hin. destruct (Horig z Hin) as [Hin'|Hin'].
      * destruct (set_add_origin _ _ _ Hin') as [?| ->]; [by left|].
        right. by left.
      * right. by right.
Qed.

Lemma validate_passes argobj x y : passes argobj x y -> _validate argobj x = Ok y.
Proof.
  intros [Hc [b [Hv Hb]]]. unfold _validate. by rewrite Hc, Hv, Hb.
Qed.

Lemma validate_ok_passes argobj x y :
  _validate argobj x = Ok y -> passes argobj x y.
Proof.
  unfold _validate, passes. destruct (convert argobj x) as [c|]; [|done].
  destruct (validate argobj c) as [b|] eqn:Hv; [|done].
  destruct (truthy b) eqn:Hb; [|done].
  intros [= <-]. split; [done|]. by exists b.
Qed.

(** [_validate] raises internal errors only. *)
Lemma validate_raises_internal argobj x e :
  _validate argobj x = Raise e -> is_internal e = true.
Proof.
  unfold _validate. destruct (convert argobj x) as [c|]; [|by intros [= <-]].
  destruct (validate argobj c) as [b|]; [|by intros [= <-]].
  destruct (truthy b); [done | by intros [= <-]].
Qed.

Lemma mapM_cons argobj x xs :
  mapM (_validate argobj) (x :: xs) =
  y ← _validate argobj x; k ← mapM (_validate argobj) xs; mret (y :: k).
Proof. reflexivity. Qed.

Lemma mapM_passes argobj xs ys :
  Forall2 (passes argobj) xs ys -> mapM (_validate argobj) xs = Ok ys.
Proof.
  induction 1 as [|x y xs ys Hp _ IH]; [done|].
  rewrite mapM_cons, (validate_passes _ _ _ Hp). simpl. by rewrite IH.
Qed.

Lemma mapM_ok_passes argobj xs : forall ys,
  mapM (_validate argobj) xs = Ok ys -> Forall2 (passes argobj) xs ys.
Proof.
  induction xs as [|x xs IH]; intros ys.
  - intros [= <-]. constructor.
  - rewrite mapM_cons. destruct (_validate argobj x) as [y|] eqn:Hx; [|done].
    simpl. destruct (mapM (_validate argobj) xs) as [k|]; [|done].
    intros [= <-]. constructor; [by apply validate_ok_passes | by apply IH].
Qed.

(** The first element that fails decides the error of the whole list. *)
Lemma mapM_fails argobj good good' x rest e :
  Forall2 (passes argobj) good good' -> _validate argobj x = Raise e ->
  mapM (_validate argobj) (good ++ x :: rest) = Raise e.
Proof.
  intros Hgood Hx. induction Hgood as [|g g' good good' Hp _ IH].
  - simpl app. rewrite mapM_cons, Hx. reflexivity.
  - change ((g :: good) ++ x :: rest)%list with (g :: (good ++ x :: rest))%list.
    rewrite mapM_cons, (validate_passes _ _ _ Hp). simpl. by rewrite IH.
Qed.

Lemma mapM_raises_internal argobj xs e :
  mapM (_validate argobj) xs = Raise e -> is_internal e = true.
Proof.
  induction xs as [|x xs IH]; [done|].
  rewrite mapM_cons. destruct (_validate argobj x) as [y|] eqn:Hx.
  - simpl. destruct (mapM (_validate argobj) xs) as [k|]; [done|].
    intros [= <-]. by apply IH.
  - intros [= <-]. by eapply validate_raises_internal.
Qed.

Lemma validated_fails argobj v good good' x rest e :
  elements_of argobj v = (good ++ x :: rest)%list ->
  Forall2 (passes argobj) good good' -> _validate argobj x = Raise e ->
  validated argobj v = Raise e.
Proof.
  unfold elements_of, validated. intros Hel Hgood Hx.
  assert (Hscalar : [v] = (good ++ x :: rest)%list -> _validate argobj v = Raise e).
  { destruct good as [|g good]; simpl; [by intros [= ->]|].
    intros [= _ Hnil]. by destruct good. }
  destruct (multiple argobj) as [k|]; [|by apply Hscalar].
  destruct v; try by apply Hscalar.
  rewrite Hel, (mapM_fails _ _ _ _ _ _ Hgood Hx). reflexivity.
Qed.

(** [validated] raises an internal error, or the [TypeError] of building
    a set from unhashable values. *)
Lemma validated_raises argobj v e :
  validated argobj v = Raise e ->
  is_internal e = true \/ exists msg, e = TypeError msg.
Proof.
  unfold validated. intros Hr.
  assert (Hscalar : _validate argobj v = Raise e ->
                    is_internal e = true \/ exists msg, e = TypeError msg).
  { intros H. left. by eapply validate_raises_internal. }
  destruct (multiple argobj) as [k|]; [|by apply Hscalar].
  destruct v; try by apply Hscalar.
  destruct (mapM (_validate argobj) xs) as [ys|e'] eqn:Hm.
  - simpl in Hr. destruct k; simpl in Hr; [done|].
    unfold py_set in Hr. destruct (forallb hashable ys); [done|].
    injection Hr as <-. right. by eexists.
  - simpl in Hr. injection Hr as <-. left. by eapply mapM_raises_internal.
Qed.

(** C7.  For an argument with a multiplicity and a list input whose
    elements all convert and validate: with [list] the result is the list
    of the converted elements in the order met; with [set] (and hashable
    converted elements) the result is a set that holds every converted
    element, nothing else, and no two equal elements.  Whenever a list
    input yields a result, every element was converted and validated and
    the result is a container of the declared kind. *)
Theorem validated_multiple argobj xs ys :
  Forall2 (passes argobj) xs ys ->
  (multiple argobj = Some list_ ->
     validated argobj (VList xs) = Ok (VList ys))
  /\ (multiple argobj = Some set_ ->
      Forall (fun y => hashable y = true) ys ->
      exists s, validated argobj (VList xs) = Ok (VSet s)
                /\ distinct s
                /\ (forall y, y ∈ ys -> contains s y)
                /\ (forall z, z ∈ s -> z ∈ ys))
  /\ (forall k xs' r,
        multiple argobj = Some k ->
        validated argobj (VList xs') = Ok r ->
        kind_of r = Some k
        /\ exists ys', Forall2 (passes argobj) xs' ys').
Proof.
  intros Hall. repeat split.
  - intros Hm. unfold validated. by rewrite Hm, (mapM_passes _ _ _ Hall).
  - intros Hm Hh. exists (foldl set_add [] ys).
    assert (Hd0 : distinct []) by (intros i j a b Hi; by rewrite lookup_nil in Hi).
    destruct (foldl_set_add ys [] Hh Hd0) as (Hd & _ & Hin & Horig).
    repeat split; try done.
    + unfold validated. rewrite Hm, (mapM_passes _ _ _ Hall). simpl.
      unfold py_set. replace (forallb hashable ys) with true; [done|].
      symmetry. apply forallb_forall. intros y Hy.
      rewrite Forall_forall in Hh. by apply Hh, list_elem_of_In.
    + intros z Hz. destruct (Horig z Hz) as [Hnil|]; [|done].
      by apply elem_of_nil in Hnil.
  - unfold validated in H0. rewrite H in H0.
    destruct (mapM (_validate argobj) xs') as [ys'|]; [|done].
    simpl in H0. destruct k; simpl in H0.
    + by injection H0 as <-.
    + unfold py_set in H0. destruct (forallb hashable ys'); [|done].
      by injection H0 as <-.
  - unfold validated in H0. rewrite H in H0.
    destruct (mapM (_validate argobj) xs') as [ys'|] eqn:Hm; [|done].
    exists ys'. by apply mapM_ok_passes.
Qed.

End Validation.

(** ** Error classification *)

Section Classification.

Context {Request : Type}.
Implicit Types (self : Parser Request) (argobj : Arg) (req : Request).
Implicit Types (name t : string) (v x y : pyval) (e : exn).

(** An error that wraps [e] is not [e] itself. *)
Lemma ConversionError_fresh e : forall name, ConversionError e name <> e.
Proof.
  induction e; intros name' Heq; try discriminate.
  injection Heq as Heq _. by eapply IHe.
Qed.

Lemma ValidationError_fresh e : forall name, ValidationError e name <> e.
Proof.
  induction e; intros name' Heq; try discriminate.
  injection Heq as Heq _. by eapply IHe.
Qed.

(** The [try] block of [parse_arg] lets no internal error through. *)
Lemma try_validated_external name argobj v e :
  try_validated name argobj v = Raise e -> is_internal e = false.
Proof.
  unfold try_validated.
  destruct (validated argobj v) as [r|e'] eqn:Hv; [done|].
  destruct (validated_raises _ _ _ Hv) as [Hint|[msg ->]].
  - destruct e'; try discriminate; by intros [= <-].
  - by intros [= <-].
Qed.

(** Errors of the collaborators apart, [parse_arg] raises nothing
    internal. *)
Lemma pinned_lookup_external self name argobj req value e :
  capabilities_external self name argobj req ->
  (pinned_lookup self name argobj req value).2 = Raise e ->
  is_internal e = false.
Proof.
  intros [Hfetch _]. unfold pinned_lookup.
  destruct (pinned_target argobj) as [t|]; [|done].
  intros Hr. apply bind_raises in Hr as [Hr | (u & _ & Hr)].
  - by eapply Hfetch.
  - destruct (negb (is_None u)); [|done].
    apply bind_raises in Hr as [Hr | (r & _ & Hr)]; [|done].
    exact (try_validated_external _ _ _ _ Hr).
Qed.

Lemma scan_external self name argobj req ts :
  capabilities_external self name argobj req ->
  forall value e,
    (scan self name argobj req ts value).2 = Raise e -> is_internal e = false.
Proof.
  intros [Hfetch _]. induction ts as [|t ts IH]; intros value e; [done|].
  rewrite scan_cons. intros Hr.
  apply bind_raises in Hr as [Hr | (u & _ & Hr)].
  - by eapply Hfetch.
  - destruct (bool_decide _ && negb (nonempty_list u)); [by eapply IH|].
    destruct (negb (is_None u)); [|by eapply IH].
    apply bind_raises in Hr as [Hr | (r & _ & Hr)]; [|done].
    exact (try_validated_external _ _ _ _ Hr).
Qed.

Lemma default_step_external self name argobj req value e :
  capabilities_external self name argobj req ->
  (default_step self name argobj req value).2 = Raise e ->
  is_internal e = false.
Proof.
  intros [_ Hfb]. unfold default_step.
  destruct (is_None value); [|done].
  intros Hr. apply bind_raises in Hr as [Hr | (u & _ & Hr)].
  - destruct (negb (is_None (default argobj))); [done|]. by eapply Hfb.
  - destruct (negb (truthy u) && required argobj); [|done].
    by injection Hr as <-.
Qed.

Lemma parse_arg_external self name argobj req targets' e :
  capabilities_external self name argobj req ->
  (parse_arg self name argobj req targets').2 = Raise e ->
  is_internal e = false.
Proof.
  intros Hcap. unfold parse_arg.
  intros Hr. apply bind_raises in Hr as [Hr | ([ret|value] & _ & Hr)].
  - by eapply pinned_lookup_external.
  - done.
  - apply bind_raises in Hr as [Hr | (ts & _ & Hr)].
    + exact (validated_targets_raises _ _ _ Hr).
    + apply bind_raises in Hr as [Hr | ([ret|value'] & _ & Hr)].
      * by eapply scan_external.
      * done.
      * by eapply default_step_external.
Qed.

(** C5.  Let [parse_arg] reach validation with a fetched value, and let [x]
    be the first of its elements (the value itself for a scalar argument)
    that does not pass.  If [convert] raises [e] on [x] the caller gets
    [ConversionError(e, name)]; if [validate] raises [e] on the converted
    element the caller gets [ValidationError(e, name)]; if [validate]
    returns a falsy result the caller gets [InvalidArg(name)]; in no case
    does [e] itself come out.  And whatever the request holds, no name-less
    internal error comes out of [parse_arg], unless a fetch capability or
    the fallback raises one itself. *)
Theorem errors_carry_the_name self name argobj req targets' :
  let outcome := (parse_arg self name argobj req targets').2 in
  (forall v log good good' x rest,
     found self name argobj req targets' v log ->
     elements_of argobj v = (good ++ x :: rest)%list ->
     Forall2 (passes argobj) good good' ->
     (forall e, convert argobj x = Raise e ->
        outcome = Raise (ConversionError e name) /\ outcome <> Raise e)
     /\ (forall y e, convert argobj x = Ok y -> validate argobj y = Raise e ->
           outcome = Raise (ValidationError e name) /\ outcome <> Raise e)
     /\ (forall y b, convert argobj x = Ok y -> validate argobj y = Ok b ->
           truthy b = false ->
           outcome = Raise (InvalidArg name)))
  /\ (capabilities_external self name argobj req ->
      forall e, outcome = Raise e -> is_internal e = false).
Proof.
  intros outcome. subst outcome. split.
  - intros v log good good' x rest Hfound Hel Hgood.
    rewrite (parse_arg_found _ _ _ _ _ _ _ Hfound). simpl.
    assert (Hfail : forall e', _validate argobj x = Raise e' ->
                               validated argobj v = Raise e').
    { intros e'. by apply (validated_fails _ _ good good' x rest). }
    split; [|split].
    + intros e He. unfold try_validated. rewrite (Hfail (InternalConversionError e)).
      * split; [done|]. intros [= Heq]. by eapply ConversionError_fresh.
      * unfold _validate. by rewrite He.
    + intros y e Hy He. unfold try_validated.
      rewrite (Hfail (InternalValidationError e)).
      * split; [done|]. intros [= Heq]. by eapply ValidationError_fresh.
      * unfold _validate. by rewrite Hy, He.
    + intros y b Hy Hb Hfalsy. unfold try_validated.
      rewrite (Hfail InternalInvalidArg); [done|].
      unfold _validate. by rewrite Hy, Hb, Hfalsy.
  - intros Hcap e. by apply parse_arg_external.
Qed.

End Classification.

(** ** Default, fallback and the required check *)

Section Defaults.

Context {Request : Type}.
Implicit Types (self : Parser Request) (argobj : Arg) (req : Request).
Implicit Types (name t : string) (v : pyval).

Lemma default_step_None self name argobj req :
  default_step self name argobj req VNone =
  (final_log name argobj,
   value ← final_value self name argobj req;
   if negb (truthy value) && required argobj
   then Raise (MissingArg name) else Ok value).
Proof.
  unfold default_step, final_log, final_value. simpl.
  destruct (is_None (default argobj)); simpl.
  - destruct (fallback self req name argobj) as [value|e]; simpl; [|done].
    by destruct (negb (truthy value) && required argobj).
  - by destruct (negb (truthy (default argobj)) && required argobj).
Qed.

(** A value other than [None] left in the loop variable is handed back as
    it is. *)
Lemma default_step_stale self name argobj req u :
  is_None u = false -> default_step self name argobj req u = ([], Ok u).
Proof. intros Hu. unfold default_step. by rewrite Hu. Qed.

(** [parse_arg] when every queried target returns [None]. *)
Lemma parse_arg_all_None self name argobj req targets' log0 :
  pinned_misses self name argobj req log0 ->
  Forall (fun t => fetches self name argobj req t VNone)
         (or_targets targets' (targets self)) ->
  parse_arg self name argobj req targets' =
  ((log0 ++ fetch_log name (or_targets targets' (targets self))
         ++ final_log name argobj)%list,
   value ← final_value self name argobj req;
   if negb (truthy value) && required argobj
   then Raise (MissingArg name) else Ok value).
Proof.
  intros Hpin Hall.
  rewrite (parse_arg_after_pinned _ _ _ _ _ log0 _ Hpin eq_refl).
  - rewrite (scan_all_None _ _ _ _ _ Hall VNone eq_refl), bind_ok.
    cbv beta iota zeta. rewrite default_step_None. reflexivity.
  - eapply Forall_impl; [exact Hall|]. intros t Hf.
    exact (fetches_registered _ _ _ _ _ _ Hf).
Qed.

(** When every queried target returns [None], the final value is the
    default if it is not [None], and else the result of the fallback. *)
Lemma default_or_fallback self name argobj req targets' log0 value :
  pinned_misses self name argobj req log0 ->
  Forall (fun t => fetches self name argobj req t VNone)
         (or_targets targets' (targets self)) ->
  final_value self name argobj req = Ok value ->
  negb (truthy value) && required argobj = false ->
  (parse_arg self name argobj req targets').2 = Ok value.
Proof.
  intros Hpin Hall Hfin Hreq.
  rewrite (parse_arg_all_None _ _ _ _ _ _ Hpin Hall), Hfin. simpl.
  by rewrite Hreq.
Qed.

(** When the last target scanned returns a value that is not [None] and
    not usable (for an argument with a multiplicity: an empty list, or
    anything that is not a list), the test [value is None] after the loop
    sees that stale value: it is the result as it is, neither the default
    nor the fallback is consulted and the required check is not made. *)
Lemma stale_value_returned self name argobj req targets' log0 pre t u :
  pinned_misses self name argobj req log0 ->
  or_targets targets' (targets self) = (pre ++ [t])%list ->
  Forall (misses self name argobj req) pre ->
  fetches self name argobj req t u ->
  usable argobj u = false -> is_None u = false ->
  parse_arg self name argobj req targets' =
  ((log0 ++ fetch_log name (pre ++ [t]))%list, Ok u).
Proof.
  intros Hpin Hts Hpre Hf Hu Hnone.
  rewrite (parse_arg_after_pinned _ _ _ _ _ log0 _ Hpin Hts).
  - rewrite (scan_ends_on_last _ _ _ _ _ _ _ _ Hpre Hf Hu), bind_ok.
    cbv beta iota zeta. rewrite (default_step_stale _ _ _ _ _ Hnone). simpl.
    by rewrite app_nil_r.
  - apply Forall_app. split.
    + eapply Forall_impl; [exact Hpre|].
      intros t' [u' [Hf' _]]. by eapply fetches_registered.
    + repeat constructor. by eapply fetches_registered.
Qed.

(** C8.  For a required argument: whenever the default step runs and the
    value it settles on is falsy, [MissingArg(name)] is raised; so it is
    when every target (the pinned one included) returns [None]; and so it
    is in particular for an argument declared without a default whose
    fallback returns [None] too. *)
Theorem required_missing self name argobj req :
  required argobj = true ->
  (forall final,
     final_value self name argobj req = Ok final -> truthy final = false ->
     (default_step self name argobj req VNone).2 = Raise (MissingArg name))
  /\ (forall targets' log0 final,
        pinned_misses self name argobj req log0 ->
        Forall (fun t => fetches self name argobj req t VNone)
               (or_targets targets' (targets self)) ->
        final_value self name argobj req = Ok final -> truthy final = false ->
        (parse_arg self name argobj req targets').2 = Raise (MissingArg name))
  /\ (forall targets' log0 conv val mult tgt,
        Arg_init conv VNone true val mult false tgt = Ok argobj ->
        pinned_misses self name argobj req log0 ->
        Forall (fun t => fetches self name argobj req t VNone)
               (or_targets targets' (targets self)) ->
        fallback self req name argobj = Ok VNone ->
        (parse_arg self name argobj req targets').2 = Raise (MissingArg name)).
Proof.
  intros Hreq.
  assert (Hall : forall targets' log0 final,
    pinned_misses self name argobj req log0 ->
    Forall (fun t => fetches self name argobj req t VNone)
           (or_targets targets' (targets self)) ->
    final_value self name argobj req = Ok final -> truthy final = false ->
    (parse_arg self name argobj req targets').2 = Raise (MissingArg name)).
  { intros targets' log0 final Hpin Hnone Hfin Hfalsy.
    rewrite (parse_arg_all_None _ _ _ _ _ _ Hpin Hnone), Hfin. simpl.
    by rewrite Hfalsy, Hreq. }
  split; [|split; [exact Hall|]].
  - intros final Hfin Hfalsy. rewrite default_step_None, Hfin. simpl.
    by rewrite Hfalsy, Hreq.
  - intros targets' log0 conv val mult tgt Hinit Hpin Hnone Hfb.
    unfold Arg_init in Hinit. simpl in Hinit. injection Hinit as <-.
    destruct mult as [[|]|].
    + apply (Hall targets' log0 (VList [])); done.
    + apply (Hall targets' log0 (VSet [])); done.
    + apply (Hall targets' log0 VNone); done.
Qed.

(** With no multiplicity and fetches that return, the scan either goes
    through on [None]s alone or stops at a first value that is not
    [None]. *)
Lemma scan_scalar_cases self name argobj req ts :
  multiple argobj = None ->
  Forall (fun t => exists u, fetches self name argobj req t u) ts ->
  Forall (fun t => fetches self name argobj req t VNone) ts
  \/ exists pre t post v,
       ts = (pre ++ t :: post)%list
       /\ Forall (misses self name argobj req) pre
       /\ Forall (registered self) post
       /\ fetches self name argobj req t v
       /\ usable argobj v = true.
Proof.
  intros Hm. induction 1 as [|t ts [u Hf] Hts IH]; [by left|].
  assert (Husable : usable argobj u = negb (is_None u)).
  { unfold usable. by rewrite Hm. }
  destruct (is_None u) eqn:Hu.
  - destruct u; try discriminate.
    destruct IH as [Hnone | (pre & t' & post & v & -> & Hpre & Hpost & Hf' & Hv)].
    + left. by constructor.
    + right. exists (t :: pre), t', post, v. repeat split; try done.
      constructor; [|done]. exists VNone. by rewrite Husable.
  - right. exists [], t, ts, u.
    repeat split; try done; try (by rewrite Husable).
    eapply Forall_impl; [exact Hts|]. intros t' [u' Hf'].
    exact (fetches_registered _ _ _ _ _ _ Hf').
Qed.

(** C9.  For a required argument without multiplicity, a value other than
    [None] found at a target, falsy or not, is converted, validated and
    returned; [MissingArg] is not raised for it.  And when the fetches
    return, [MissingArg] comes out of [parse_arg] only if every target
    queried, the pinned one included, returned [None]. *)
Theorem found_value_never_missing self name argobj req targets' :
  required argobj = true ->
  multiple argobj = None ->
  (forall v log,
     found self name argobj req targets' v log ->
     parse_arg self name argobj req targets'
       = (log, try_validated name argobj v)
     /\ (forall n, (parse_arg self name argobj req targets').2
                   <> Raise (MissingArg n))
     /\ (forall y, passes argobj v y ->
                   (parse_arg self name argobj req targets').2 = Ok y))
  /\ (forall n,
        (forall t, pinned_target argobj = Some t ->
                   exists log u, _get_value self name argobj req t = (log, Ok u)) ->
        Forall (fun t => exists u, fetches self name argobj req t u)
               (or_targets targets' (targets self)) ->
        (parse_arg self name argobj req targets').2 = Raise (MissingArg n) ->
        (exists log0, pinned_misses self name argobj req log0)
        /\ Forall (fun t => fetches self name argobj req t VNone)
                  (or_targets targets' (targets self))).
Proof.
  intros Hreq Hm.
  assert (Hfound : forall v log,
    found self name argobj req targets' v log ->
    parse_arg self name argobj req targets' = (log, try_validated name argobj v)
    /\ (forall n, (parse_arg self name argobj req targets').2
                  <> Raise (MissingArg n))
    /\ (forall y, passes argobj v y ->
                  (parse_arg self name argobj req targets').2 = Ok y)).
  { intros v log Hf. rewrite (parse_arg_found _ _ _ _ _ _ _ Hf).
    split; [done|]. simpl. unfold try_validated, validated. rewrite Hm. split.
    - intros n.
      destruct (_validate argobj v) as [r|e] eqn:Hv; [done|].
      apply validate_raises_internal in Hv. by destruct e.
    - intros y Hy. by rewrite (validate_passes _ _ _ Hy). }
  split; [exact Hfound|].
  intros n Hpinned Hret Hmiss.
  assert (Hpin : exists log0, pinned_misses self name argobj req log0
            \/ exists t v, pinned_target argobj = Some t
                 /\ fetches self name argobj req t v /\ is_None v = false).
  { unfold pinned_misses, pinned_lookup.
    destruct (pinned_target argobj) as [t|] eqn:Ht.
    - destruct (Hpinned t eq_refl) as (log & u & Hget).
      destruct (is_None u) eqn:Hu.
      + exists log. left. rewrite Hget, bind_ok. destruct u; try discriminate.
        simpl. by rewrite app_nil_r.
      + exists log. right. exists t, u. repeat split; try done.
        unfold fetches. rewrite Hget. unfold _get_value in Hget |- *.
        destruct (TARGET_MAP self !! t); [|by injection Hget as _ <-].
        by injection Hget as <- _.
    - exists []. by left. }
  destruct Hpin as [log0 [Hpin | (t & v & Ht & Hf & Hv)]].
  - destruct (scan_scalar_cases _ _ _ _ _ Hm Hret)
      as [Hnone | (pre & t & post & v & Hts & Hpre & Hpost & Hf & Hv)].
    + split; [by exists log0 | done].
    + exfalso.
      destruct (Hfound v _ (found_scan _ _ _ _ _ log0 pre t post v
                              Hpin Hts Hpost Hpre Hf Hv)) as (_ & Hno & _).
      by eapply Hno.
  - exfalso.
    destruct (Hfound v _ (found_pinned _ _ _ _ _ t v Ht Hf Hv)) as (_ & Hno & _).
    by eapply Hno.
Qed.

End Defaults.

(** ** Batch resolution *)

Section Batch.

Context {Request : Type}.
Implicit Types (self : Parser Request) (argobj : Arg) (req : Request).
Implicit Types (argname : string) (error : exn).
Implicit Types (parsed : gmap string pyval).

(** The loop over a concatenation runs the first part, then the second. *)
Lemma parse_items_app self pre items req targets' : forall parsed,
  parse_items self (pre ++ items) req targets' parsed =
  parsed' ← parse_items self pre req targets' parsed;
  parse_items self items req targets' parsed'.
Proof.
  induction pre as [|[argname argobj] pre IH]; intros parsed.
  - simpl. unfold mret, M_ret, mbind, M_bind.
    by destruct (parse_items self items req targets' parsed).
  - simpl.
    destruct (parse_arg self argname argobj req
                (Some (or_targets targets' (targets self))))
      as [log [value|e]]; [|reflexivity].
    unfold mbind at 1 3. unfold M_bind at 1 3.
    set (parsed1 := if is_None value && allow_missing argobj
                    then parsed else <[argname:=value]> parsed).
    assert (Hpre : (if is_None value && allow_missing argobj
                    then parse_items self pre req targets' parsed
                    else parse_items self pre req targets'
                           (<[argname:=value]> parsed))
                   = parse_items self pre req targets' parsed1).
    { subst parsed1. by destruct (is_None value && allow_missing argobj). }
    assert (Hall : (if is_None value && allow_missing argobj
                    then parse_items self (pre ++ items) req targets' parsed
                    else parse_items self (pre ++ items) req targets'
                           (<[argname:=value]> parsed))
                   = parse_items self (pre ++ items) req targets' parsed1).
    { subst parsed1. by destruct (is_None value && allow_missing argobj). }
    rewrite Hpre, Hall, IH. unfold mbind, M_bind.
    destruct (parse_items self pre req targets' parsed1) as [log1 [p1|e1]];
      [|reflexivity].
    destruct (parse_items self items req targets' p1) as [log2 r2].
    by rewrite app_assoc.
Qed.

(** The loop stops at the first argument whose resolution raises. *)
Lemma parse_items_raises self pre argname argobj post req targets'
    log_pre parsed_pre log_a error :
  parse_items self pre req targets' ∅ = (log_pre, Ok parsed_pre) ->
  parse_arg self argname argobj req
    (Some (or_targets targets' (targets self))) = (log_a, Raise error) ->
  parse_items self (pre ++ (argname, argobj) :: post) req targets' ∅
  = ((log_pre ++ log_a)%list, Raise error).
Proof.
  intros Hpre Ha. rewrite parse_items_app, Hpre, bind_ok. simpl.
  by rewrite Ha.
Qed.

(** What [parse] does with an error of the loop. *)
Lemma parse_on_error self argmap req targets' log error :
  parse_items self argmap req targets' ∅ = (log, Raise error) ->
  parse self argmap req targets' =
  match error_callback self with
  | Some callback =>
      ((log ++ [EvErrorCallback error])%list, callback error ≫= fun _ => Ok None)
  | None =>
      ((log ++ [EvHandleError error])%list,
       handle_error self error ≫= fun _ => Ok None)
  end.
Proof.
  intros Hloop. unfold parse. rewrite Hloop, bind_raise. simpl.
  destruct (error_callback self) as [callback|]; unfold call.
  - by destruct (callback error).
  - by destruct (handle_error self error).
Qed.

(** C6.  When the arguments before [argname] resolve and the resolution of
    [argname] raises [error], [parse] stops there: what it does and returns
    is the same whatever arguments follow, and none of them is resolved;
    [error] goes to the registered callback if there is one and to
    [handle_error] otherwise; the caller gets [None] or an exception, never
    a dictionary; and with the [handle_error] of the base class, which
    re-raises, the caller gets [error]. *)
Theorem parse_aborts_on_first_error self pre argname argobj post req targets'
    log_pre parsed_pre log_a error :
  parse_items self pre req targets' ∅ = (log_pre, Ok parsed_pre) ->
  parse_arg self argname argobj req
    (Some (or_targets targets' (targets self))) = (log_a, Raise error) ->
  let run := parse self (pre ++ (argname, argobj) :: post) req targets' in
  run = match error_callback self with
        | Some callback =>
            ((log_pre ++ log_a ++ [EvErrorCallback error])%list,
             callback error ≫= fun _ => Ok None)
        | None =>
            ((log_pre ++ log_a ++ [EvHandleError error])%list,
             handle_error self error ≫= fun _ => Ok None)
        end
  /\ (forall post',
        parse self (pre ++ (argname, argobj) :: post') req targets' = run)
  /\ (forall parsed, run.2 <> Ok (Some parsed))
  /\ (error_callback self = None ->
      handle_error self error = Raise error -> run.2 = Raise error)
  /\ (forall ts eh,
        handle_error (Parser_init ts eh : Parser Request) error = Raise error).
Proof.
  intros Hpre Ha run.
  assert (Hrun : forall post',
    parse self (pre ++ (argname, argobj) :: post') req targets' =
    match error_callback self with
    | Some callback =>
        ((log_pre ++ log_a ++ [EvErrorCallback error])%list,
         callback error ≫= fun _ => Ok None)
    | None =>
        ((log_pre ++ log_a ++ [EvHandleError error])%list,
         handle_error self error ≫= fun _ => Ok None)
    end).
  { intros post'.
    rewrite (parse_on_error _ _ _ _ _ _
               (parse_items_raises _ _ _ _ post' _ _ _ _ _ _ Hpre Ha)).
    by rewrite <- !app_assoc. }
  subst run. repeat split.
  - apply Hrun.
  - intros post'. by rewrite !Hrun.
  - intros parsed. rewrite Hrun.
    destruct (error_callback self) as [callback|]; simpl.
    + by destruct (callback error).
    + by destruct (handle_error self error).
  - intros Hno Hh. by rewrite Hrun, Hno, Hh.
Qed.

(** C10.  When the resolution of an argument raises [error] and a callback
    is registered: if the callback returns, [parse] returns [None]; if the
    callback raises, [parse] raises what the callback raised; in neither
    case does the caller get a dictionary. *)
Theorem parse_returns_None_after_callback self pre argname argobj post req
    targets' log_pre parsed_pre log_a error callback :
  error_callback self = Some callback ->
  parse_items self pre req targets' ∅ = (log_pre, Ok parsed_pre) ->
  parse_arg self argname argobj req
    (Some (or_targets targets' (targets self))) = (log_a, Raise error) ->
  let run := parse self (pre ++ (argname, argobj) :: post) req targets' in
  (forall r, callback error = Ok r ->
     run = ((log_pre ++ log_a ++ [EvErrorCallback error])%list, Ok None))
  /\ (forall e, callback error = Raise e ->
        run = ((log_pre ++ log_a ++ [EvErrorCallback error])%list, Raise e))
  /\ (forall parsed, run.2 <> Ok (Some parsed)).
Proof.
  intros Hcb Hpre Ha run. subst run.
  rewrite (parse_on_error _ _ _ _ _ _
             (parse_items_raises _ _ _ _ post _ _ _ _ _ _ Hpre Ha)), Hcb.
  rewrite <- !app_assoc. repeat split.
  - intros r Hr. by rewrite Hr.
  - intros e He. by rewrite He.
  - intros parsed. simpl. by destruct (callback error).
Qed.

End Batch.

(** ** The properties at concrete requests *)

Ltac registered_by_lookup :=
  repeat constructor; unfold registered; eexists; vm_compute; reflexivity.

(** With [Arg(target='json')] and a json value, only json is queried; with
    no json value the scan follows and the query string's value wins. *)
Lemma pinned_target_first_witness :
  parse_arg (stub_Parser (VStr "q") VNone (VStr "j")) "x" pinned_Arg tt None
    = ([EvFetch "json" "x"], Ok (VStr "j"))
  /\ parse_arg (stub_Parser (VStr "q") VNone VNone) "x" pinned_Arg tt None
    = ([EvFetch "json" "x"; EvFetch "querystring" "x"], Ok (VStr "q")).
Proof.
  split.
  - destruct (pinned_target_first (stub_Parser (VStr "q") VNone (VStr "j"))
                "x" pinned_Arg tt None "json" eq_refl) as [Hfound _].
    destruct (Hfound (VStr "j")) as [Heq _];
      [vm_compute; reflexivity | reflexivity | exact Heq].
  - destruct (pinned_target_first (stub_Parser (VStr "q") VNone VNone)
                "x" pinned_Arg tt None "json" eq_refl) as [_ Hscan].
    rewrite (Hscan [EvFetch "json" "x"]); vm_compute; reflexivity.
Defined.

(** C1 as stated fails: the pinned target json holds no value for the name,
    and [parse_arg] goes on to call [parse_querystring]. *)
Lemma pinned_target_scan_counterexample :
  pinned_target pinned_Arg = Some "json"
  /\ parse_arg (stub_Parser (VStr "q") VNone VNone) "x" pinned_Arg tt None
     = ([EvFetch "json" "x"; EvFetch "querystring" "x"], Ok (VStr "q"))
  /\ ~ queries_only "json"
       (parse_arg (stub_Parser (VStr "q") VNone VNone) "x" pinned_Arg tt None).1.
Proof.
  assert (Heq :
    parse_arg (stub_Parser (VStr "q") VNone VNone) "x" pinned_Arg tt None
    = ([EvFetch "json" "x"; EvFetch "querystring" "x"], Ok (VStr "q")))
    by (vm_compute; reflexivity).
  split; [reflexivity|]. split; [exact Heq|].
  rewrite Heq. intros Honly.
  assert (Hq : "querystring" = "json").
  { apply (Honly "querystring" "x"). simpl. apply elem_of_cons. right.
    apply elem_of_cons. by left. }
  discriminate Hq.
Qed.

(** C2, the code at [targets=['bogus']]: nothing is fetched, and what is
    raised is not [WebargsValueError] but the [TypeError] of calling its
    two-argument constructor with the message alone. *)
Theorem bogus_target_raises_TypeError :
  parse_arg (Parser_init None None : Parser unit) "x" plain_Arg tt
    (Some ["bogus"])
  = ([], Raise (TypeError
                  "__init__() missing 1 required positional argument: 'msg'")).
Proof. vm_compute. reflexivity. Qed.

(** A target registered with [target_handler] passes the check and is
    queried. *)
Example custom_target_accepted :
  parse_arg
    (target_handler (Parser_init None None : Parser unit) "bogus"
       (fun _ _ _ => Ok (VInt 3)))
    "x" plain_Arg tt (Some ["bogus"])
  = ([EvFetch "bogus" "x"], Ok (VInt 3)).
Proof. vm_compute. reflexivity. Qed.

(** With the default targets and a value in json only, json is reached
    after the query string and the form. *)
Lemma first_usable_target_wins_witness :
  parse_arg (stub_Parser VNone VNone (VStr "j")) "x" plain_Arg tt None
  = ([EvFetch "querystring" "x"; EvFetch "form" "x"; EvFetch "json" "x"],
     Ok (VStr "j")).
Proof.
  apply (first_usable_target_wins (stub_Parser VNone VNone (VStr "j")) "x"
           plain_Arg tt None ["querystring"; "form"] "json" [] (VStr "j")).
  - reflexivity.
  - reflexivity.
  - constructor.
  - repeat constructor; exists VNone; split; vm_compute; reflexivity.
  - vm_compute. reflexivity.
  - reflexivity.
Defined.

(** The same scan stops at the query string when the name is there. *)
Example querystring_wins :
  parse_arg (stub_Parser (VStr "q") VNone (VStr "j")) "x" plain_Arg tt
    (Some ["querystring"; "json"])
  = ([EvFetch "querystring" "x"], Ok (VStr "q")).
Proof. by apply querystring_before_json. Qed.

(** C4, the code at [Arg(multiple=list, default=['x'])] with the single
    target querystring returning the empty list: the result is that empty
    list, not the default, and the fallback is not called; with
    [required=True] on top, no [MissingArg] is raised either. *)
Theorem default_ignored_after_empty_list :
  default (list_Arg false) = VList [VStr "x"]
  /\ parse_arg (stub_Parser (VList []) VNone VNone) "x" (list_Arg false) tt
       (Some ["querystring"])
     = ([EvFetch "querystring" "x"], Ok (VList []))
  /\ parse_arg (stub_Parser (VList []) VNone VNone) "x" (list_Arg true) tt
       (Some ["querystring"])
     = ([EvFetch "querystring" "x"], Ok (VList [])).
Proof. repeat split; vm_compute; reflexivity. Qed.

(** With [None] at the last target instead, the default is used. *)
Example default_used_after_None :
  parse_arg (stub_Parser (VList []) VNone VNone) "x" (list_Arg false) tt
    (Some ["querystring"; "json"])
  = ([EvFetch "querystring" "x"; EvFetch "json" "x"], Ok (VList [VStr "x"])).
Proof. vm_compute. reflexivity. Qed.

(** A value in the query string is found by the scan at its first step. *)
Lemma found_in_querystring name argobj v :
  pinned_target argobj = None -> usable argobj v = true ->
  found (stub_Parser v VNone VNone) name argobj tt None v
    [EvFetch "querystring" name].
Proof.
  intros Hpin Hv.
  apply (found_scan _ _ _ _ _ [] [] "querystring" ["form"; "json"] v).
  - unfold pinned_misses, pinned_lookup. by rewrite Hpin.
  - reflexivity.
  - registered_by_lookup.
  - constructor.
  - reflexivity.
  - exact Hv.
Defined.

(** Text where an integer is expected: the [ValueError] of the conversion
    reaches the caller inside a [ConversionError] that names the argument. *)
Lemma errors_carry_the_name_witness :
  (parse_arg (stub_Parser (VStr "abc") VNone VNone) "x" (doubling_Arg None)
     tt None).2
  = Raise (ConversionError (UserException "ValueError") "x").
Proof.
  destruct (errors_carry_the_name
              (stub_Parser (VStr "abc") VNone VNone) "x" (doubling_Arg None)
              tt None) as [Hclass _].
  destruct (Hclass (VStr "abc") [EvFetch "querystring" "x"]
              [] [] (VStr "abc") []
              (found_in_querystring "x" (doubling_Arg None) (VStr "abc")
                 eq_refl eq_refl)
              eq_refl ltac:(constructor))
    as [Hconv _].
  exact (proj1 (Hconv (UserException "ValueError") eq_refl)).
Defined.

(** The other two classes: a validator that raises, and one that says no. *)
Example validation_error_named :
  (parse_arg (stub_Parser (VInt 1) VNone VNone) "x"
     (mkArg noop VNone false double None false None) tt None).2
  = Ok (VInt 1)
  /\ (parse_arg (stub_Parser (VStr "abc") VNone VNone) "x"
        (mkArg noop VNone false positive None false None) tt None).2
     = Raise (ValidationError (TypeError "'<' not supported") "x")
  /\ (parse_arg (stub_Parser (VInt (-1)) VNone VNone) "x"
        (doubling_Arg None) tt None).2
     = Raise (InvalidArg "x").
Proof. repeat split; vm_compute; reflexivity. Qed.

(** The second argument fails to convert: the third is never looked up and
    the error reaches the caller through [handle_error]. *)
Lemma parse_aborts_on_first_error_witness :
  parse (stub_Parser (VStr "abc") VNone VNone) sample_argmap tt None
  = ([EvFetch "querystring" "a"; EvFetch "querystring" "b";
      EvHandleError (ConversionError (UserException "ValueError") "b")],
     Raise (ConversionError (UserException "ValueError") "b")).
Proof.
  assert (Hpre :
    parse_items (stub_Parser (VStr "abc") VNone VNone) [("a", plain_Arg)]
      tt None ∅
    = ([EvFetch "querystring" "a"], Ok {["a" := VStr "abc"]}))
    by (vm_compute; reflexivity).
  assert (Hb :
    parse_arg (stub_Parser (VStr "abc") VNone VNone) "b" (doubling_Arg None)
      tt (Some (or_targets None DEFAULT_TARGETS))
    = ([EvFetch "querystring" "b"],
       Raise (ConversionError (UserException "ValueError") "b")))
    by (vm_compute; reflexivity).
  exact (proj1 (parse_aborts_on_first_error
                  (stub_Parser (VStr "abc") VNone VNone)
                  [("a", plain_Arg)] "b" (doubling_Arg None)
                  [("c", plain_Arg)] tt None _ _ _ _ Hpre Hb)).
Defined.

(** Doubling [1, 2, 1] into a set leaves the two elements 2 and 4. *)
Lemma validated_multiple_witness :
  exists s,
    validated (doubling_Arg (Some set_)) (VList [VInt 1; VInt 2; VInt 1])
      = Ok (VSet s)
    /\ distinct s
    /\ (forall y, y ∈ [VInt 2; VInt 4; VInt 2] -> contains s y)
    /\ (forall z, z ∈ s -> z ∈ [VInt 2; VInt 4; VInt 2]).
Proof.
  apply (validated_multiple (doubling_Arg (Some set_))
           [VInt 1; VInt 2; VInt 1] [VInt 2; VInt 4; VInt 2]).
  - repeat constructor; exists (VBool true); split; reflexivity.
  - reflexivity.
  - repeat constructor.
Defined.

Example validated_list_and_set :
  validated (doubling_Arg (Some list_)) (VList [VInt 1; VInt 2; VInt 1])
    = Ok (VList [VInt 2; VInt 4; VInt 2])
  /\ validated (doubling_Arg (Some set_)) (VList [VInt 1; VInt 2; VInt 1])
    = Ok (VSet [VInt 2; VInt 4]).
Proof. split; reflexivity. Qed.

(** [Arg(required=True)] on a request that has the name nowhere. *)
Lemma required_missing_witness :
  (parse_arg (stub_Parser VNone VNone VNone) "x" required_Arg tt None).2
  = Raise (MissingArg "x").
Proof.
  apply (proj2 (proj2 (required_missing (stub_Parser VNone VNone VNone) "x"
                         required_Arg tt eq_refl))
           None [] None None None None).
  - reflexivity.
  - reflexivity.
  - repeat constructor.
  - reflexivity.
Defined.

(** [Arg(required=True)] and an empty string in the query string: the empty
    string is returned. *)
Lemma found_value_never_missing_witness :
  parse_arg (stub_Parser (VStr "") VNone VNone) "x" required_Arg tt None
  = ([EvFetch "querystring" "x"], Ok (VStr "")).
Proof.
  apply (proj1 (found_value_never_missing
                  (stub_Parser (VStr "") VNone VNone) "x" required_Arg tt
                  None eq_refl eq_refl)
           (VStr "") [EvFetch "querystring" "x"]
           (found_in_querystring "x" required_Arg (VStr "") eq_refl eq_refl)).
Defined.

(** The same failing batch with a callback that returns: [parse] returns
    [None]. *)
Lemma parse_returns_None_after_callback_witness :
  parse (error_handler (stub_Parser (VStr "abc") VNone VNone) swallow)
    sample_argmap tt None
  = ([EvFetch "querystring" "a"; EvFetch "querystring" "b";
      EvErrorCallback (ConversionError (UserException "ValueError") "b")],
     Ok None).
Proof.
  assert (Hpre :
    parse_items (error_handler (stub_Parser (VStr "abc") VNone VNone) swallow)
      [("a", plain_Arg)] tt None ∅
    = ([EvFetch "querystring" "a"], Ok {["a" := VStr "abc"]}))
    by (vm_compute; reflexivity).
  assert (Hb :
    parse_arg (error_handler (stub_Parser (VStr "abc") VNone VNone) swallow)
      "b" (doubling_Arg None) tt (Some (or_targets None DEFAULT_TARGETS))
    = ([EvFetch "querystring" "b"],
       Raise (ConversionError (UserException "ValueError") "b")))
    by (vm_compute; reflexivity).
  exact (proj1 (parse_returns_None_after_callback
                  (error_handler (stub_Parser (VStr "abc") VNone VNone) swallow)
                  [("a", plain_Arg)] "b" (doubling_Arg None)
                  [("c", plain_Arg)] tt None _ _ _ _ swallow eq_refl Hpre Hb)
           VNone eq_refl).
Defined.

(** ** The constructor of [Arg] *)

Section Constructor.

Implicit Types (argobj : Arg) (obj : pyobj).

Lemma callable_cases obj :
  (rejected obj = false /\ _callable obj = Ok obj)
  \/ (rejected obj = true
      /\ exists v, _callable obj
                   = Raise (WebargsValueError v (VStr "%r is not callable."))).
Proof.
  destruct obj as [v|f]; simpl; [|by left].
  destruct (truthy v); [right | by left].
  split; [done|]. by exists v.
Qed.

Lemma checked_multiple_cases multiple :
  (bad_multiple multiple = false /\ exists m, checked_multiple multiple = Ok m)
  \/ (bad_multiple multiple = true
      /\ exists v, checked_multiple multiple
                   = Raise (WebargsValueError v
                              (VStr "%r is not a list, set or None."))).
Proof.
  destruct multiple as [k|v]; simpl.
  - left. split; [done|]. by eexists.
  - destruct v; simpl;
      first [ left; split; [done|]; by eexists
            | right; split; [done|]; by eexists ].
Qed.

Lemma Arg_init_cases conv default required val mult allow_missing target :
  (required && allow_missing = false
   /\ exists argobj,
        Arg_init conv default required val mult allow_missing target = Ok argobj)
  \/ (required && allow_missing = true
      /\ exists msg,
           Arg_init conv default required val mult allow_missing target
           = Raise (WebargsValueError VNone msg)).
Proof.
  unfold Arg_init. destruct (required && allow_missing).
  - right. split; [done|]. by eexists.
  - left. split; [done|]. by eexists.
Qed.

(** X1.  The constructor fails exactly when [convert] or [validate] is a
    truthy object that cannot be called, when [multiple] is none of [list],
    [set] and [None], or when both [required] and [allow_missing] are set;
    and what it raises is then always a [WebargsValueError]. *)
Theorem Arg_new_fails_iff convert default required validate multiple
    allow_missing target :
  ((exists e, Arg_new convert default required validate multiple
                allow_missing target = Raise e)
   <-> rejected convert = true \/ rejected validate = true
       \/ bad_multiple multiple = true
       \/ (required = true /\ allow_missing = true))
  /\ (forall e, Arg_new convert default required validate multiple
                  allow_missing target = Raise e ->
                exists arg msg, e = WebargsValueError arg msg).
Proof.
  unfold Arg_new.
  destruct (callable_cases convert) as [[Hc ->] | [Hc [vc ->]]];
    [|split; [split; [by left | by eexists] | intros e [= <-]; by eexists _, _]].
  destruct (callable_cases validate) as [[Hv ->] | [Hv [vv ->]]];
    [|split; [split; [by right; left | by eexists]
             | intros e [= <-]; by eexists _, _]].
  destruct (checked_multiple_cases multiple) as [[Hm [m ->]] | [Hm [vm ->]]];
    [|split; [split; [by right; right; left | by eexists]
             | intros e [= <-]; by eexists _, _]].
  simpl.
  destruct (Arg_init_cases (callable_of convert) default required
              (callable_of validate) m allow_missing target)
    as [[Hra [argobj ->]] | [Hra [msg ->]]].
  - split.
    + split; [by intros [e ?]|].
      intros [H | [H | [H | [-> ->]]]]; simpl in *; congruence.
    + by intros e.
  - split.
    + split; [|by eexists]. intros _. right; right; right.
      by apply andb_true_iff in Hra.
    + intros e [= <-]. by eexists _, _.
Qed.

(** X2.  Every [Arg] that the constructor returns keeps what was passed
    for [required], [allow_missing] and [target], never has both
    [required] and [allow_missing], and has a default that is the one
    passed, except that [None] becomes the empty container of a
    multi-valued argument, whose default is therefore never [None]. *)
Theorem Arg_new_invariants convert default0 required0 validate multiple0
    allow_missing0 target0 argobj :
  Arg_new convert default0 required0 validate multiple0 allow_missing0 target0
    = Ok argobj ->
  required argobj = required0 /\ allow_missing argobj = allow_missing0
  /\ target argobj = target0
  /\ required argobj && allow_missing argobj = false
  /\ multiple argobj
     = match multiple0 with Mclass k => Some k | Mvalue _ => None end
  /\ default argobj
     = match multiple argobj with
       | Some k => if is_None default0 then empty_container k else default0
       | None => default0
       end
  /\ (forall k, multiple argobj = Some k -> is_None (default argobj) = false).
Proof.
  unfold Arg_new.
  destruct (callable_cases convert) as [[_ ->] | [_ [? ->]]]; [|done].
  destruct (callable_cases validate) as [[_ ->] | [_ [? ->]]]; [|done].
  simpl. destruct multiple0 as [k|v]; simpl.
  - unfold Arg_init. destruct (required0 && allow_missing0) eqn:Hra; [done|].
    intros [= <-]. simpl. repeat split; try done.
    intros k' [= <-]. destruct default0; by destruct k.
  - destruct v; try done. simpl.
    unfold Arg_init. destruct (required0 && allow_missing0) eqn:Hra; [done|].
    intros [= <-]. simpl. by repeat split.
Qed.

(** On a callable (or nothing) for [convert] and [validate] and a class (or
    nothing) for [multiple], the constructor is [Arg_init]. *)
Lemma Arg_new_typed conv default required val mult allow_missing target :
  Arg_new (from_option Callable (Value VNone) conv) default required
    (from_option Callable (Value VNone) val)
    (from_option Mclass (Mvalue VNone) mult) allow_missing target
  = Arg_init conv default required val mult allow_missing target.
Proof. by destruct conv, val, mult. Qed.

End Constructor.

(** ** More on [validated] *)

Section Revalidation.

Implicit Types (argobj : Arg) (x y v r : pyval).

Lemma set_add_length s x : length (set_add s x) <= S (length s).
Proof.
  unfold set_add. destruct (existsb (hash_eqb x) s); [lia|].
  rewrite length_app. simpl. lia.
Qed.

Lemma foldl_set_add_length ys : forall s,
  length (foldl set_add s ys) <= length s + length ys.
Proof.
  induction ys as [|y ys IH]; intros s; simpl; [lia|].
  specialize (IH (set_add s y)). pose proof (set_add_length s y). lia.
Qed.

Lemma passes_fixed argobj x y :
  passes argobj x y -> convert argobj y = Ok y -> passes argobj y y.
Proof. intros [_ Hv] Hc. by split. Qed.

(** X3.  Validating again what [validated] returned changes nothing, for
    a scalar argument and for a [list] argument given a list, as long as
    [convert] leaves the converted elements as they are. *)
Theorem validated_idempotent argobj v r :
  multiple argobj = None
  \/ (multiple argobj = Some list_ /\ exists xs, v = VList xs) ->
  validated argobj v = Ok r ->
  (forall y, y ∈ elements_of argobj r -> convert argobj y = Ok y) ->
  validated argobj r = Ok r.
Proof.
  intros [Hm | [Hm [xs ->]]] Hv Hfix.
  - unfold validated, elements_of in *. rewrite Hm in *.
    apply validate_ok_passes in Hv.
    apply validate_passes, (passes_fixed _ _ _ Hv).
    apply Hfix. by apply list_elem_of_singleton.
  - unfold validated, elements_of in *. rewrite Hm in *.
    destruct (mapM (_validate argobj) xs) as [ys|] eqn:Hmap; [|done].
    simpl in Hv. injection Hv as <-.
    apply mapM_ok_passes in Hmap.
    assert (Hys : Forall2 (passes argobj) ys ys).
    { clear Hm. induction Hmap as [|x y xs ys Hp _ IH]; [constructor|].
      constructor.
      - apply (passes_fixed _ _ _ Hp), Hfix. by left.
      - apply IH. intros z Hz. apply Hfix. by right. }
    by rewrite (mapM_passes _ _ _ Hys).
Qed.

(** X4.  For a multi-valued argument and a list input, [validated] returns
    one converted element per element of the input for [list] and at most
    that many for [set]; on the empty list it returns the empty container
    without calling [convert] or [validate]. *)
Theorem validated_size argobj k xs r :
  multiple argobj = Some k ->
  validated argobj (VList xs) = Ok r ->
  match r with
  | VList ys => k = list_ /\ length ys = length xs
  | VSet s => k = set_ /\ length s <= length xs
  | _ => False
  end
  /\ (xs = [] -> r = empty_container k).
Proof.
  intros Hm. unfold validated. rewrite Hm.
  destruct (mapM (_validate argobj) xs) as [ys|] eqn:Hmap; [|done].
  apply mapM_ok_passes, Forall2_length in Hmap. simpl.
  destruct k; simpl.
  - intros [= <-]. split; [done|]. intros ->. by destruct ys.
  - unfold py_set. destruct (forallb hashable ys); [|done].
    intros [= <-]. split.
    + split; [done|]. pose proof (foldl_set_add_length ys []). simpl in *. lia.
    + intros ->. by destruct ys.
Qed.

End Revalidation.

(** ** What [parse_arg] asks of its collaborators *)

Section Logs.

Context {Request : Type}.
Implicit Types (self : Parser Request) (argobj : Arg) (req : Request).
Implicit Types (name t : string) (v : pyval).

Lemma get_value_registered self name argobj req t :
  registered self t ->
  exists r, _get_value self name argobj req t = ([EvFetch t name], r).
Proof.
  unfold registered, _get_value. intros [func ->]. by eexists.
Qed.

Lemma get_value_unregistered self name argobj req t :
  TARGET_MAP self !! t = None ->
  _get_value self name argobj req t = ([], Ok VNone).
Proof. unfold _get_value. by intros ->. Qed.

Lemma validated_targets_cases self (ts : list string) :
  (Forall (registered self) ts /\ _validated_targets self ts = Ok ts)
  \/ (~ Forall (registered self) ts
      /\ _validated_targets self ts =
         Raise (TypeError
                  "__init__() missing 1 required positional argument: 'msg'")).
Proof.
  destruct (Forall_Exists_dec (registered self)
              (fun t => ~ registered self t)
              (fun t => decide (is_Some (TARGET_MAP self !! t))) ts)
    as [Hall | Hex].
  - left. split; [done|]. by apply validated_targets_ok.
  - right. apply Exists_exists in Hex as [t [Hin Hno]]. split.
    + intros Hall. rewrite Forall_forall in Hall. by apply Hno, Hall.
    + apply (validated_targets_invalid _ _ t Hin).
      unfold registered in Hno. destruct (TARGET_MAP self !! t); [|done].
      exfalso. apply Hno. by eexists.
Qed.

(** X5.  The target check returns the requested list itself, order and
    repetitions kept, exactly when every name in it is registered; for
    any other list it raises, and what it raises is a [TypeError], never
    the [WebargsValueError] it means to build. *)
Theorem validated_targets_iff self (ts : list string) :
  (forall ts', _validated_targets self ts = Ok ts'
               <-> ts' = ts /\ Forall (registered self) ts)
  /\ (forall e, _validated_targets self ts = Raise e ->
        ~ Forall (registered self) ts
        /\ e = TypeError
                 "__init__() missing 1 required positional argument: 'msg'").
Proof.
  destruct (validated_targets_cases self ts) as [[Hall ->] | [Hno ->]]; split.
  - intros ts'. split; [by intros [= <-] | by intros [-> _]].
  - by intros e.
  - intros ts'. split; [done | by intros [_ ?]].
  - by intros e [= <-].
Qed.

(** The loop queries the targets one after the other and is left, if
    not by [return] or an exception, after the last one. *)
Lemma scan_log self name argobj req ts :
  Forall (registered self) ts ->
  forall value, exists k,
    (scan self name argobj req ts value).1 = fetch_log name (take k ts)
    /\ (forall value', (scan self name argobj req ts value).2 = Ok (Next value')
                       -> k = length ts).
Proof.
  induction 1 as [|t ts Ht _ IH]; intros value.
  - exists 0. by split.
  - rewrite scan_cons.
    destruct (get_value_registered self name argobj req t Ht) as [[u|e] ->].
    + rewrite bind_ok. cbv beta.
      destruct (bool_decide (is_Some (multiple argobj)) && negb (nonempty_list u)).
      { destruct (IH u) as [k [Hlog Hk]]. exists (S k). simpl.
        rewrite Hlog. split; [done|].
        intros value' Hn. f_equal. by eapply Hk. }
      destruct (negb (is_None u)).
      { exists 1. simpl. rewrite ?take_0. split.
        - unfold lift, mbind, M_bind, mret, M_ret.
          by destruct (try_validated name argobj u).
        - unfold lift, mbind, M_bind, mret, M_ret.
          by destruct (try_validated name argobj u). }
      destruct (IH u) as [k [Hlog Hk]]. exists (S k). simpl.
      rewrite Hlog. split; [done|].
      intros value' Hn. f_equal. by eapply Hk.
    + exists 1. rewrite bind_raise. simpl. by rewrite ?take_0.
Qed.

Lemma default_step_log self name argobj req value :
  (default_step self name argobj req value).1 = []
  \/ ((default_step self name argobj req value).1 = [EvFallback name]
      /\ is_None (default argobj) = true).
Proof.
  unfold default_step. destruct (is_None value); [|by left].
  destruct (is_None (default argobj)); simpl.
  - right. split; [|done].
    destruct (fallback self req name argobj) as [u|e]; [|done]. simpl.
    by destruct (negb (truthy u) && required argobj).
  - left. by destruct (negb (truthy (default argobj)) && required argobj).
Qed.

Lemma pinned_lookup_log self name argobj req value :
  (pinned_lookup self name argobj req value).1 = []
  \/ exists t, pinned_target argobj = Some t
               /\ (pinned_lookup self name argobj req value).1
                  = [EvFetch t name].
Proof.
  unfold pinned_lookup. destruct (pinned_target argobj) as [t|]; [|by left].
  unfold _get_value. destruct (TARGET_MAP self !! t) as [func|].
  - right. exists t. split; [done|]. unfold call.
    match goal with
    | |- context [(?l, ?r) ≫= _] => destruct r as [u|e]; [|done]
    end.
    rewrite bind_ok. cbv beta. destruct (negb (is_None u)); [|done].
    unfold lift, mbind, M_bind, mret, M_ret.
    by destruct (try_validated name argobj u).
  - left. by rewrite bind_ret.
Qed.

(** The calls of [parse_arg]: the pinned fetch, a prefix of the requested
    targets, the fallback. *)
Lemma parse_arg_log self name argobj req targets' :
  exists log0 k fb,
    (parse_arg self name argobj req targets').1
    = (log0 ++ fetch_log name (take k (or_targets targets' (targets self)))
            ++ fb)%list
    /\ (log0 = []
        \/ exists t, pinned_target argobj = Some t /\ log0 = [EvFetch t name])
    /\ (fb = []
        \/ (fb = [EvFallback name]
            /\ is_None (default argobj) = true
            /\ k = length (or_targets targets' (targets self)))).
Proof.
  unfold parse_arg.
  pose proof (pinned_lookup_log self name argobj req VNone) as Hpin.
  destruct (pinned_lookup self name argobj req VNone)
    as [log0 [[ret|value]|e]]; simpl in Hpin.
  - exists log0, 0, []. rewrite bind_ok. simpl.
    rewrite ?take_0, !app_nil_r. by repeat split; [|left].
  - rewrite bind_ok. cbv beta iota.
    destruct (validated_targets_cases self (or_targets targets' (targets self)))
      as [[Hall ->] | [_ ->]].
    + rewrite bind_lift_ok.
      destruct (scan_log self name argobj req _ Hall value) as [k [Hlog Hk]].
      destruct (scan self name argobj req
                  (or_targets targets' (targets self)) value)
        as [slog [[ret|value']|e]]; simpl in Hlog.
      * exists log0, k, []. rewrite bind_ok. simpl.
        rewrite Hlog, !app_nil_r. by repeat split; [|left].
      * pose proof (default_step_log self name argobj req value') as Hfb.
        exists log0, k, (default_step self name argobj req value').1.
        rewrite bind_ok. simpl. rewrite Hlog. split; [done|]. split; [done|].
        destruct Hfb as [Hfb | [Hfb Hd]]; [by left|]. right.
        split; [done|]. split; [done|]. by eapply Hk.
      * exists log0, k, []. rewrite bind_raise. simpl.
        rewrite Hlog, !app_nil_r. by repeat split; [|left].
    + exists log0, 0, []. simpl. rewrite ?take_0, !app_nil_r.
      by repeat split; [|left].
  - exists log0, 0, []. rewrite bind_raise. simpl.
    rewrite ?take_0, !app_nil_r. by repeat split; [|left].
Qed.

(** [parse_arg] itself never calls an error handler. *)
Lemma parse_arg_no_handler self name argobj req targets' :
  Forall (fun ev => is_handler_event ev = false)
         (parse_arg self name argobj req targets').1.
Proof.
  destruct (parse_arg_log self name argobj req targets')
    as (log0 & k & fb & -> & Hlog0 & Hfb).
  apply Forall_app. split; [|apply Forall_app; split].
  - destruct Hlog0 as [-> | (t & _ & ->)]; by repeat constructor.
  - unfold fetch_log. apply Forall_fmap, Forall_true. by intros t.
  - destruct Hfb as [-> | (-> & _)]; by repeat constructor.
Qed.

(** The fallback is called only for an argument without a default. *)
Lemma fallback_needs_no_default self name argobj req targets' n :
  EvFallback n ∈ (parse_arg self name argobj req targets').1 ->
  is_None (default argobj) = true.
Proof.
  destruct (parse_arg_log self name argobj req targets')
    as (log0 & k & fb & -> & Hlog0 & Hfb).
  rewrite !elem_of_app. intros [Hin | [Hin | Hin]].
  - destruct Hlog0 as [-> | (t & _ & ->)].
    + by apply elem_of_nil in Hin.
    + by apply list_elem_of_singleton in Hin.
  - unfold fetch_log in Hin. apply list_elem_of_fmap in Hin.
    by destruct Hin as [t [? _]].
  - destruct Hfb as [-> | (_ & Hd & _)]; [|done].
    by apply elem_of_nil in Hin.
Qed.

(** X6.  Whatever the request holds, [parse_arg] calls its collaborators in
    one fixed pattern: at most one fetch at the pinned target, then the
    requested targets in their order, each occurrence once, as far as the
    scan gets, then at most one call of the fallback, which happens only
    when the argument has no default and every target has been queried.
    It never calls an error handler. *)
Theorem parse_arg_log_shape self name argobj req targets' :
  (exists log0 k fb,
     (parse_arg self name argobj req targets').1
     = (log0 ++ fetch_log name (take k (or_targets targets' (targets self)))
             ++ fb)%list
     /\ (log0 = []
         \/ exists t, pinned_target argobj = Some t /\ log0 = [EvFetch t name])
     /\ (fb = []
         \/ (fb = [EvFallback name]
             /\ is_None (default argobj) = true
             /\ k = length (or_targets targets' (targets self)))))
  /\ Forall (fun ev => is_handler_event ev = false)
            (parse_arg self name argobj req targets').1.
Proof.
  split.
  - apply parse_arg_log.
  - apply parse_arg_no_handler.
Qed.

(** The default of a multi-valued argument is never [None]. *)
Lemma Arg_new_multi_default convert default0 required0 validate k
    allow_missing0 target0 argobj :
  Arg_new convert default0 required0 validate (Mclass k) allow_missing0
    target0 = Ok argobj ->
  is_None (default argobj) = false.
Proof.
  unfold Arg_new.
  destruct (callable_cases convert) as [[_ ->] | [_ [? ->]]]; [|done].
  destruct (callable_cases validate) as [[_ ->] | [_ [? ->]]]; [|done].
  simpl. unfold Arg_init.
  destruct (required0 && allow_missing0); [done|].
  intros [= <-]. simpl. destruct default0; by destruct k.
Qed.

(** X7.  For a multi-valued argument built by the constructor the fallback
    is never called: its default is at least the empty container. *)
Theorem multi_arg_never_falls_back self name req targets' convert default0
    required0 validate k allow_missing0 target0 argobj :
  Arg_new convert default0 required0 validate (Mclass k) allow_missing0
    target0 = Ok argobj ->
  forall n, EvFallback n ∉ (parse_arg self name argobj req targets').1.
Proof.
  intros Hnew n Hin.
  apply fallback_needs_no_default in Hin.
  rewrite (Arg_new_multi_default _ _ _ _ _ _ _ _ Hnew) in Hin. discriminate.
Qed.

End Logs.

(** ** Registered targets and the base class *)

Section Registration.

Context {Request : Type}.
Implicit Types (self : Parser Request) (argobj : Arg) (req : Request).
Implicit Types (name t : string) (v : pyval) (func : capability Request).

Lemma target_handler_get_value self t func name argobj req :
  _get_value (target_handler self t func) name argobj req t
  = ([EvFetch t name], func req name argobj).
Proof. unfold _get_value. simpl. by rewrite lookup_insert_eq. Qed.

Lemma target_handler_get_value_ne self t t' func name argobj req :
  t' <> t ->
  _get_value (target_handler self t func) name argobj req t'
  = _get_value self name argobj req t'.
Proof.
  intros Hne. unfold _get_value. simpl. by rewrite lookup_insert_ne.
Qed.

(** X8.  Once [func] is registered for the name [t], be it new or one of
    the built-in six, a lookup at [t] calls [func] and lookups at other
    targets are as before; a request for the targets [[t]] passes the
    check, and a usable value that [func] returns is converted, validated
    and returned. *)
Theorem custom_target_resolves self t func name argobj req v :
  pinned_target argobj = None ->
  func req name argobj = Ok v ->
  usable argobj v = true ->
  _get_value (target_handler self t func) name argobj req t
    = ([EvFetch t name], Ok v)
  /\ (forall t', t' <> t ->
        _get_value (target_handler self t func) name argobj req t'
        = _get_value self name argobj req t')
  /\ parse_arg (target_handler self t func) name argobj req (Some [t])
     = ([EvFetch t name], try_validated name argobj v).
Proof.
  intros Hpin Hfunc Hv.
  assert (Hf : fetches (target_handler self t func) name argobj req t v).
  { unfold fetches. by rewrite target_handler_get_value, Hfunc. }
  split; [exact Hf|]. split.
  - intros t'. apply target_handler_get_value_ne.
  - apply (parse_arg_found _ _ _ _ _ _ ([] ++ fetch_log name ([] ++ [t]))%list).
    apply (found_scan _ _ _ _ _ [] [] t [] v); try done.
    unfold pinned_misses, pinned_lookup. by rewrite Hpin.
Qed.

(** X9.  Registering twice under one name keeps the last function only;
    registrations under different names do not depend on their order. *)
Theorem target_handler_last_wins self t t' (f g : capability Request) :
  target_handler (target_handler self t f) t g = target_handler self t g
  /\ (t <> t' ->
      target_handler (target_handler self t f) t' g
      = target_handler (target_handler self t' g) t f).
Proof.
  split.
  - unfold target_handler. simpl. by rewrite insert_insert_eq.
  - intros Hne. unfold target_handler. simpl. f_equal.
    by apply insert_insert_ne.
Qed.

(** X10.  A pinned target that is not registered is passed over in
    silence: nothing is fetched for it and nothing is raised, and
    [parse_arg] does what it does without a pinned target. *)
Theorem unregistered_pinned_target_ignored self name argobj req targets' t :
  pinned_target argobj = Some t ->
  TARGET_MAP self !! t = None ->
  pinned_lookup self name argobj req VNone = ([], Ok (Next VNone))
  /\ parse_arg self name argobj req targets' =
     (ts ← lift (_validated_targets self (or_targets targets' (targets self)));
      found ← scan self name argobj req ts VNone;
      match found with
      | Return ret => mret ret
      | Next value => default_step self name argobj req value
      end).
Proof.
  intros Hpin Hno.
  assert (Hlook : pinned_lookup self name argobj req VNone
                  = ([], Ok (Next VNone))).
  { unfold pinned_lookup.
    by rewrite Hpin, (get_value_unregistered _ _ _ _ _ Hno), bind_ok. }
  split; [exact Hlook|].
  unfold parse_arg. rewrite Hlook.
  exact (bind_lift_ok _ (Next VNone)).
Qed.

Lemma class_target_map_methods t (func : handler Request) :
  CLASS_TARGET_MAP !! t = Some func -> exists m, func = Method m.
Proof.
  unfold CLASS_TARGET_MAP. intros H.
  repeat (apply lookup_insert_Some in H as [[_ <-] | [_ H]]; [by eexists|]).
  by rewrite lookup_empty in H.
Qed.

Lemma is_None_true v : is_None v = true -> v = VNone.
Proof. by destruct v. Qed.

(** X11.  The base class finds no value anywhere: with registered targets,
    [parse_arg] on a parser made by [Parser()] gives the default of the
    argument ([None] if it has none), or [MissingArg] if the argument is
    required and that default is falsy. *)
Theorem base_parser_finds_nothing (targets0 : option (list string))
    (handler0 : option (exn -> result pyval)) name argobj req targets' :
  let self : Parser Request := Parser_init targets0 handler0 in
  Forall (registered self) (or_targets targets' (targets self)) ->
  (parse_arg self name argobj req targets').2
  = if negb (truthy (default argobj)) && required argobj
    then Raise (MissingArg name)
    else Ok (default argobj).
Proof.
  intros self Hreg.
  assert (Hfetch : forall t, registered self t ->
                             fetches self name argobj req t VNone).
  { intros t [func Hfunc]. unfold fetches, _get_value. rewrite Hfunc.
    destruct (class_target_map_methods t func Hfunc) as [m ->].
    by destruct m. }
  assert (Hpin : exists log0, pinned_misses self name argobj req log0).
  { unfold pinned_misses, pinned_lookup.
    destruct (pinned_target argobj) as [t|]; [|by eexists].
    destruct (TARGET_MAP self !! t) as [func|] eqn:Hfunc.
    - exists [EvFetch t name].
      rewrite (Hfetch t (ex_intro _ func Hfunc)). by rewrite bind_ok.
    - exists []. by rewrite (get_value_unregistered _ _ _ _ _ Hfunc), bind_ok. }
  destruct Hpin as [log0 Hpin].
  rewrite (parse_arg_all_None self name argobj req targets' log0 Hpin).
  - simpl. unfold final_value.
    destruct (is_None (default argobj)) eqn:Hd; [|done].
    apply is_None_true in Hd. by rewrite Hd.
  - eapply Forall_impl; [exact Hreg|]. exact Hfetch.
Qed.

End Registration.

(** ** More on batch resolution *)

Section BatchContent.

Context {Request : Type}.
Implicit Types (self : Parser Request) (argobj : Arg) (req : Request).
Implicit Types (name : string) (v : pyval) (error : exn).
Implicit Types (parsed : gmap string pyval).

Lemma parse_items_cons self argname argobj items req targets' parsed :
  parse_items self ((argname, argobj) :: items) req targets' parsed =
  parsed_value ← parse_arg self argname argobj req
                   (Some (or_targets targets' (targets self)));
  if is_None parsed_value && allow_missing argobj
  then parse_items self items req targets' parsed
  else parse_items self items req targets' (<[argname := parsed_value]> parsed).
Proof. reflexivity. Qed.

(** The loop never calls an error handler. *)
Lemma parse_items_no_handler self items req targets' : forall parsed,
  Forall (fun ev => is_handler_event ev = false)
         (parse_items self items req targets' parsed).1.
Proof.
  induction items as [|[argname argobj] items IH]; intros parsed;
    [by constructor|].
  rewrite parse_items_cons.
  pose proof (parse_arg_no_handler self argname argobj req
                (Some (or_targets targets' (targets self)))) as Harg.
  destruct (parse_arg self argname argobj req
              (Some (or_targets targets' (targets self))))
    as [log [value|e]]; simpl in Harg; [|done].
  rewrite bind_ok. simpl. apply Forall_app. split; [done|].
  destruct (is_None value && allow_missing argobj); apply IH.
Qed.

(** What [parse] does when the loop runs through. *)
Lemma parse_on_success self argmap req targets' log parsed :
  parse_items self argmap req targets' ∅ = (log, Ok parsed) ->
  parse self argmap req targets' = (log, Ok (Some parsed)).
Proof.
  intros Hloop. unfold parse. rewrite Hloop, bind_ok. simpl.
  by rewrite app_nil_r.
Qed.

(** The dictionary built by a loop in which every argument resolves. *)
Lemma parse_items_content self req targets' items vals :
  NoDup items.*1 ->
  Forall2 (fun item v =>
             (parse_arg self item.1 item.2 req
                (Some (or_targets targets' (targets self)))).2 = Ok v)
          items vals ->
  forall parsed0, exists log parsed,
    parse_items self items req targets' parsed0 = (log, Ok parsed)
    /\ (forall name, name ∉ items.*1 -> parsed !! name = parsed0 !! name)
    /\ (forall i name argobj v,
          items !! i = Some (name, argobj) -> vals !! i = Some v ->
          parsed !! name = if is_None v && allow_missing argobj
                           then parsed0 !! name else Some v).
Proof.
  intros Hnd Hall. induction Hall as [|[name argobj] v items vals Hv _ IH];
    intros parsed0.
  - exists [], parsed0. by repeat split.
  - simpl in Hnd, Hv. apply NoDup_cons in Hnd as [Hfresh Hnd].
    rewrite parse_items_cons.
    destruct (parse_arg self name argobj req
                (Some (or_targets targets' (targets self))))
      as [log0 r]; simpl in Hv; subst r.
    rewrite bind_ok. cbv beta.
    set (parsed1 := if is_None v && allow_missing argobj
                    then parsed0 else <[name:=v]> parsed0).
    assert (Hstep :
      (if is_None v && allow_missing argobj
       then parse_items self items req targets' parsed0
       else parse_items self items req targets' (<[name:=v]> parsed0))
      = parse_items self items req targets' parsed1).
    { subst parsed1. by destruct (is_None v && allow_missing argobj). }
    rewrite Hstep.
    destruct (IH Hnd parsed1) as (log & parsed & -> & Hother & Hhere).
    exists (log0 ++ log)%list, parsed. split; [done|].
    assert (Hhead : parsed1 !! name
                    = if is_None v && allow_missing argobj
                      then parsed0 !! name else Some v).
    { subst parsed1. destruct (is_None v && allow_missing argobj); [done|].
      by rewrite lookup_insert_eq. }
    assert (Hrest : forall name', name' <> name ->
                                  parsed1 !! name' = parsed0 !! name').
    { intros name' Hne. subst parsed1.
      destruct (is_None v && allow_missing argobj); [done|].
      by rewrite lookup_insert_ne. }
    split.
    + intros name' Hnot. simpl in Hnot.
      apply not_elem_of_cons in Hnot as [Hne Hnot].
      by rewrite (Hother name' Hnot), (Hrest name' Hne).
    + intros [|i] name' argobj' v' Hi Hvi; simpl in Hi, Hvi.
      * injection Hi as <- <-. injection Hvi as <-.
        by rewrite (Hother name Hfresh).
      * rewrite (Hhere i name' argobj' v' Hi Hvi).
        assert (Hne : name' <> name).
        { intros ->. apply Hfresh.
          apply list_elem_of_fmap. exists (name, argobj'). split; [done|].
          by eapply list_elem_of_lookup_2. }
        by rewrite (Hrest name' Hne).
Qed.

(** X12.  When every argument of the mapping resolves, [parse] returns a
    dictionary that maps each declared name to its value, except that a
    name whose value is [None] and whose argument has [allow_missing] is
    left out altogether; it holds no other key, and no error handler is
    called. *)
Theorem parse_success_content self req targets' items vals :
  NoDup items.*1 ->
  Forall2 (fun item v =>
             (parse_arg self item.1 item.2 req
                (Some (or_targets targets' (targets self)))).2 = Ok v)
          items vals ->
  exists log parsed,
    parse self items req targets' = (log, Ok (Some parsed))
    /\ (forall i name argobj v,
          items !! i = Some (name, argobj) -> vals !! i = Some v ->
          parsed !! name = if is_None v && allow_missing argobj
                           then None else Some v)
    /\ (forall name, name ∉ items.*1 -> parsed !! name = None)
    /\ Forall (fun ev => is_handler_event ev = false) log.
Proof.
  intros Hnd Hall.
  destruct (parse_items_content self req targets' items vals Hnd Hall ∅)
    as (log & parsed & Hloop & Hother & Hhere).
  exists log, parsed. split; [by apply parse_on_success|].
  split; [|split].
  - intros i name argobj v Hi Hv. rewrite (Hhere i name argobj v Hi Hv).
    by rewrite lookup_empty.
  - intros name Hnot. by rewrite (Hother name Hnot), lookup_empty.
  - pose proof (parse_items_no_handler self items req targets' ∅) as Hlog.
    by rewrite Hloop in Hlog.
Qed.

(** The log of [parse]: that of the loop, then at most one handler call. *)
Lemma parse_log self argmap req targets' :
  exists h,
    (parse self argmap req targets').1
    = ((parse_items self argmap req targets' ∅).1 ++ h)%list
    /\ match (parse_items self argmap req targets' ∅).2 with
       | Ok _ => h = []
       | Raise error =>
           h = [match error_callback self with
                | Some _ => EvErrorCallback error
                | None => EvHandleError error
                end]
       end.
Proof.
  destruct (parse_items self argmap req targets' ∅) as [log [parsed|error]]
    eqn:Hloop.
  - exists []. rewrite (parse_on_success _ _ _ _ _ _ Hloop). simpl.
    by rewrite app_nil_r.
  - rewrite (parse_on_error _ _ _ _ _ _ Hloop).
    destruct (error_callback self); by eexists.
Qed.

(** X13.  In every run of [parse], an error handler is called at most
    once, as the last thing that happens, with the error that stopped
    the loop; when the loop runs through no handler is called at all. *)
Theorem parse_handler_once self argmap req targets' :
  exists log h,
    (parse self argmap req targets').1 = (log ++ h)%list
    /\ Forall (fun ev => is_handler_event ev = false) log
    /\ ((h = [] /\ exists parsed,
           (parse self argmap req targets').2 = Ok (Some parsed))
        \/ (exists error,
              (parse_items self argmap req targets' ∅).2 = Raise error
              /\ h = [match error_callback self with
                      | Some _ => EvErrorCallback error
                      | None => EvHandleError error
                      end])).
Proof.
  destruct (parse_log self argmap req targets') as [h [Hlog Hh]].
  exists (parse_items self argmap req targets' ∅).1, h.
  split; [exact Hlog|]. split; [apply parse_items_no_handler|].
  destruct (parse_items self argmap req targets' ∅) as [log [parsed|error]]
    eqn:Hloop; simpl in Hh.
  - left. split; [done|]. exists parsed.
    by rewrite (parse_on_success _ _ _ _ _ _ Hloop).
  - right. by exists error.
Qed.

(** Sequencing respects pointwise equality of what follows. *)
Lemma bind_ext {A B} (f g : A -> M B) (m : M A) :
  (forall a, f a = g a) -> mbind f m = mbind g m.
Proof.
  intros Hfg. destruct m as [log [a|e]]; [|reflexivity].
  by rewrite !bind_ok, Hfg.
Qed.

(** Resolution does not look at the error callback. *)
Lemma error_handler_get_value self (f : exn -> result pyval) name argobj req t :
  _get_value (error_handler self f) name argobj req t
  = _get_value self name argobj req t.
Proof.
  unfold _get_value. simpl.
  by destruct (TARGET_MAP self !! t) as [[m|func]|].
Qed.

Lemma error_handler_scan self (f : exn -> result pyval) name argobj req ts :
  forall value,
    scan (error_handler self f) name argobj req ts value
    = scan self name argobj req ts value.
Proof.
  induction ts as [|t ts IH]; intros value; [done|].
  rewrite !scan_cons, error_handler_get_value.
  apply bind_ext. intros u. by rewrite !IH.
Qed.

Lemma error_handler_parse_arg self (f : exn -> result pyval) name argobj req
    targets' :
  parse_arg (error_handler self f) name argobj req targets'
  = parse_arg self name argobj req targets'.
Proof.
  unfold parse_arg.
  assert (Hpin : pinned_lookup (error_handler self f) name argobj req VNone
                 = pinned_lookup self name argobj req VNone).
  { unfold pinned_lookup. destruct (pinned_target argobj); [|done].
    by rewrite error_handler_get_value. }
  rewrite Hpin. apply bind_ext. intros [ret|value]; [done|].
  apply bind_ext. intros ts. by rewrite error_handler_scan.
Qed.

Lemma error_handler_items self (f : exn -> result pyval) items req targets' :
  forall parsed,
    parse_items (error_handler self f) items req targets' parsed
    = parse_items self items req targets' parsed.
Proof.
  induction items as [|[argname argobj] items IH]; intros parsed; [done|].
  rewrite !parse_items_cons. simpl targets.
  rewrite error_handler_parse_arg.
  apply bind_ext. intros v. by rewrite !IH.
Qed.

(** X14.  A callback registered with [error_handler] replaces whatever
    was there: errors of the loop go to it, also on a parser whose
    [handle_error] is overridden or that had another callback, the method
    [handle_error] is not called any more, and registering again keeps
    the last callback only. *)
Theorem error_handler_overrides self (f g : exn -> result pyval) argmap req
    targets' :
  (forall log error,
     parse_items self argmap req targets' ∅ = (log, Raise error) ->
     parse (error_handler self f) argmap req targets'
     = ((log ++ [EvErrorCallback error])%list, f error ≫= fun _ => Ok None))
  /\ (forall error,
        EvHandleError error ∉ (parse (error_handler self f) argmap req targets').1)
  /\ error_handler (error_handler self f) g = error_handler self g.
Proof.
  split; [|split].
  - intros log error Hloop.
    rewrite (parse_on_error (error_handler self f) _ _ _ log error); [done|].
    by rewrite error_handler_items.
  - intros error Hin.
    destruct (parse_log (error_handler self f) argmap req targets')
      as [h [Hlog Hh]].
    rewrite Hlog in Hin. apply elem_of_app in Hin as [Hin | Hin].
    + pose proof (parse_items_no_handler (error_handler self f) argmap req
                    targets' ∅) as Hno.
      rewrite Forall_forall in Hno. by specialize (Hno _ Hin).
    + destruct (parse_items (error_handler self f) argmap req targets' ∅).2;
        subst h.
      * by apply elem_of_nil in Hin.
      * simpl in Hin. by apply list_elem_of_singleton in Hin.
  - reflexivity.
Qed.

End BatchContent.

(** ** The decorators *)

Section DecoratorProps.

Context {Request : Type}.
Implicit Types (self : Parser Request) (argobj : Arg) (req : Request).
Implicit Types (name : string) (v : pyval) (func : view).
Implicit Types (args : list pyval) (kwargs parsed : gmap string pyval).

(** X15.  With [as_kwargs], and [use_kwargs] always has it, a dictionary
    returned by [parse] is merged into the keyword arguments of the call:
    a parsed name overrides a keyword of the same name that the caller
    passed, the other keywords and the positional arguments go through
    untouched. *)
Theorem use_kwargs_merges self argmap req targets' as_kwargs func args kwargs
    log parsed :
  parse self argmap req (Some (or_targets targets' DEFAULT_TARGETS))
    = (log, Ok (Some parsed)) ->
  exists kwargs',
    use_kwargs self argmap req targets' as_kwargs func args kwargs
      = (log, func (Pos <$> args) kwargs')
    /\ use_args self argmap req targets' true func args kwargs
       = (log, func (Pos <$> args) kwargs')
    /\ (forall k v, parsed !! k = Some v -> kwargs' !! k = Some v)
    /\ (forall k, parsed !! k = None -> kwargs' !! k = kwargs !! k).
Proof.
  intros Hparse. exists (parsed ∪ kwargs).
  assert (Hrun : use_args self argmap req targets' true func args kwargs
                 = (log, func (Pos <$> args) (parsed ∪ kwargs))).
  { unfold use_args. cbv zeta. rewrite Hparse, bind_ok. simpl.
    by rewrite app_nil_r. }
  split; [exact Hrun|]. split; [exact Hrun|]. split.
  - intros k v Hk. by apply lookup_union_Some_l.
  - intros k Hk. by apply lookup_union_r.
Qed.

(** X16.  When the resolution of an argument raises and the registered
    callback returns, [parse] hands [None] to the wrapper, and with
    [as_kwargs] the wrapper raises a [TypeError] on merging it: the view
    function is not called, whatever it is. *)
Theorem use_kwargs_after_swallowed_error self argmap req targets' as_kwargs
    args kwargs log error callback r :
  error_callback self = Some callback ->
  parse_items self argmap req
    (Some (or_targets targets' DEFAULT_TARGETS)) ∅ = (log, Raise error) ->
  callback error = Ok r ->
  forall func,
    use_kwargs self argmap req targets' as_kwargs func args kwargs
    = ((log ++ [EvErrorCallback error])%list,
       Raise (TypeError "'NoneType' object is not iterable")).
Proof.
  intros Hcb Hloop Hr func. unfold use_kwargs, use_args. cbv zeta.
  rewrite (parse_on_error _ _ _ _ _ _ Hloop), Hcb, Hr. simpl.
  by rewrite app_nil_r.
Qed.

(** Where the wrapper puts the result of [parse] among the positional
    arguments. *)
Lemma use_args_positional_run self argmap req targets' func args kwargs log
    parsed_args :
  parse self argmap req (Some (or_targets targets' DEFAULT_TARGETS))
    = (log, Ok parsed_args) ->
  use_args self argmap req targets' false func args kwargs
  = (log,
     func (match args with
           | first :: rest =>
               if truthy first
               then Pos first :: Parsed parsed_args :: (Pos <$> rest)
               else Parsed parsed_args :: (Pos <$> args)
           | [] => [Parsed parsed_args]
           end) kwargs).
Proof.
  intros Hparse. unfold use_args. cbv zeta. rewrite Hparse, bind_ok.
  cbv beta iota. destruct args as [|first rest]; simpl.
  - by rewrite app_nil_r.
  - destruct (truthy first); simpl; by rewrite app_nil_r.
Qed.

(** X17.  Without [as_kwargs] the view function gets one positional
    argument more than the caller passed: what [parse] returned, dictionary
    or [None], in second place when the first argument is truthy (the
    [self] of a method) and in first place otherwise, also when the first
    argument is there but falsy; the caller's arguments keep their order
    and the keyword arguments are untouched. *)
Theorem use_args_positional self argmap req targets' func args kwargs log
    parsed_args :
  parse self argmap req (Some (or_targets targets' DEFAULT_TARGETS))
    = (log, Ok parsed_args) ->
  exists pos,
    use_args self argmap req targets' false func args kwargs
      = (log, func pos kwargs)
    /\ length pos = S (length args)
    /\ pos !! (if bool_decide (truthy <$> head args = Some true)
               then 1 else 0) = Some (Parsed parsed_args)
    /\ omap (fun p => match p with Pos v => Some v | Parsed _ => None end) pos
       = args.
Proof.
  intros Hparse.
  assert (Homap : forall l : list pyval,
    omap (fun p => match p with Pos v => Some v | Parsed _ => None end)
         (Pos <$> l) = l).
  { induction l as [|x l IH]; [done|]. simpl. f_equal. exact IH. }
  eexists. split; [by apply use_args_positional_run|].
  destruct args as [|first rest]; simpl; [done|].
  destruct (truthy first); simpl.
  - rewrite length_fmap. repeat split; try done. by rewrite Homap.
  - rewrite length_fmap. repeat split; try done. by rewrite Homap.
Qed.

(** Resolution with an explicit, non-empty list of targets does not look
    at the [targets] attribute of the parser. *)
Lemma with_targets_get_value self ts name argobj req t :
  _get_value (with_targets self ts) name argobj req t
  = _get_value self name argobj req t.
Proof.
  unfold _get_value. simpl.
  by destruct (TARGET_MAP self !! t) as [[m|func]|].
Qed.

Lemma with_targets_scan self ts name argobj req l :
  forall value,
    scan (with_targets self ts) name argobj req l value
    = scan self name argobj req l value.
Proof.
  induction l as [|t l IH]; intros value; [done|].
  rewrite !scan_cons, with_targets_get_value.
  apply bind_ext. intros u. by rewrite !IH.
Qed.

Lemma with_targets_parse_arg self ts name argobj req t l :
  parse_arg (with_targets self ts) name argobj req (Some (t :: l))
  = parse_arg self name argobj req (Some (t :: l)).
Proof.
  unfold parse_arg.
  assert (Hpin : pinned_lookup (with_targets self ts) name argobj req VNone
                 = pinned_lookup self name argobj req VNone).
  { unfold pinned_lookup. destruct (pinned_target argobj); [|done].
    by rewrite with_targets_get_value. }
  rewrite Hpin. apply bind_ext. intros [ret|value]; [done|].
  apply bind_ext. intros l'. by rewrite with_targets_scan.
Qed.

Lemma with_targets_items self ts items req t l :
  forall parsed,
    parse_items (with_targets self ts) items req (Some (t :: l)) parsed
    = parse_items self items req (Some (t :: l)) parsed.
Proof.
  induction items as [|[argname argobj] items IH]; intros parsed; [done|].
  rewrite !parse_items_cons. simpl or_targets.
  rewrite with_targets_parse_arg.
  apply bind_ext. intros v. by rewrite !IH.
Qed.

Lemma with_targets_parse self ts argmap req t l :
  parse (with_targets self ts) argmap req (Some (t :: l))
  = parse self argmap req (Some (t :: l)).
Proof. unfold parse. by rewrite with_targets_items. Qed.

Lemma or_targets_default_cons (targets' : option (list string)) :
  exists t l, or_targets targets' DEFAULT_TARGETS = t :: l.
Proof. destruct targets' as [[|t l]|]; by eexists _, _. Qed.

(** X18.  The decorators never use the [targets] a parser was configured
    with: without an explicit list they scan [DEFAULT_TARGETS], so two
    parsers that differ in their [targets] only behave alike under
    [use_args], and without an explicit list the wrapper does what it does
    for the explicit list [DEFAULT_TARGETS]. *)
Theorem use_args_ignores_parser_targets self ts argmap req targets' as_kwargs
    func args kwargs :
  use_args (with_targets self ts) argmap req targets' as_kwargs func args
    kwargs
  = use_args self argmap req targets' as_kwargs func args kwargs
  /\ use_args self argmap req None as_kwargs func args kwargs
     = use_args self argmap req (Some DEFAULT_TARGETS) as_kwargs func args
         kwargs.
Proof.
  split; [|reflexivity].
  unfold use_args. cbv zeta.
  destruct (or_targets_default_cons targets') as (t & l & ->).
  by rewrite with_targets_parse.
Qed.

End DecoratorProps.

(** ** [get_value] as a fetch capability, and the pinned target again *)

Section Sources.

Context {Request : Type}.
Implicit Types (self : Parser Request) (argobj : Arg) (req : Request).
Implicit Types (name t : string) (v val : pyval) (d : source).

(** On a container with neither [getlist] nor [getall], a multi-valued
    lookup wraps the single value in a list, [None] included. *)
Lemma get_value_wraps d name k val :
  getlist d = None -> getall d = None ->
  lookup_method d name = Ok val ->
  get_value d name (Some k) = Ok (VList [val]).
Proof. intros Hl Ha Hv. unfold get_value. by rewrite Hv, Hl, Ha. Qed.

(** X19.  When the fetch capability of the first requested target is
    [get_value] on a container with neither [getlist] nor [getall], such
    as a plain dictionary, a multi-valued argument is always found there:
    the single value that the container returns, [None] for a missing key
    included, is wrapped in a one-element list, which is validated and
    returned; no later target is queried, and neither the default nor the
    fallback is used. *)
Theorem plain_container_always_found self name argobj req targets' d t post k
    val :
  pinned_target argobj = None ->
  multiple argobj = Some k ->
  getlist d = None -> getall d = None ->
  or_targets targets' (targets self) = t :: post ->
  Forall (registered self) post ->
  _get_value self name argobj req t
    = ([EvFetch t name], get_value d name (multiple argobj)) ->
  lookup_method d name = Ok val ->
  parse_arg self name argobj req targets'
  = ([EvFetch t name], try_validated name argobj (VList [val])).
Proof.
  intros Hpin Hm Hl Ha Hts Hpost Hget Hval.
  rewrite Hm, (get_value_wraps d name k val Hl Ha Hval) in Hget.
  apply (parse_arg_found _ _ _ _ _ _ ([] ++ fetch_log name ([] ++ [t]))%list).
  apply (found_scan _ _ _ _ _ [] [] t post (VList [val])); try done.
  - unfold pinned_misses, pinned_lookup. by rewrite Hpin.
  - unfold usable. by rewrite Hm.
Qed.

(** X20.  The pinned lookup makes no multiplicity test.  For a
    multi-valued argument, a value the scan would pass over is accepted
    at the pinned target: an empty list comes back as the empty container,
    whatever the default and even if the argument is required, and a
    value that is not a list is converted and validated as a whole and
    returned bare, not in a container. *)
Theorem pinned_ignores_multiplicity self name argobj req targets' t k v :
  pinned_target argobj = Some t ->
  multiple argobj = Some k ->
  fetches self name argobj req t v ->
  is_None v = false ->
  parse_arg self name argobj req targets'
    = ([EvFetch t name], try_validated name argobj v)
  /\ (v = VList [] ->
      (parse_arg self name argobj req targets').2 = Ok (empty_container k))
  /\ (forall y, (forall xs, v <> VList xs) -> passes argobj v y ->
                (parse_arg self name argobj req targets').2 = Ok y).
Proof.
  intros Hpin Hm Hf Hv.
  assert (Heq : parse_arg self name argobj req targets'
                = ([EvFetch t name], try_validated name argobj v)).
  { apply parse_arg_found. by apply found_pinned. }
  split; [exact Heq|]. rewrite Heq. simpl. split.
  - intros ->. unfold try_validated, validated. rewrite Hm. by destruct k.
  - intros y Hnl Hy. unfold try_validated, validated. rewrite Hm.
    destruct v; try by rewrite (validate_passes _ _ _ Hy).
    by destruct (Hnl xs).
Qed.

End Sources.

(** ** The further properties at concrete inputs *)

Lemma Arg_new_invariants_witness :
  is_None (default (doubling_Arg (Some set_))) = false.
Proof.
  destruct (Arg_new_invariants (Callable double) VNone false
              (Callable positive) (Mclass set_) false None
              (doubling_Arg (Some set_)) eq_refl)
    as (_ & _ & _ & _ & Hm & _ & Hd).
  exact (Hd set_ Hm).
Defined.

(** What the constructor rejects, at a few arguments. *)
Example Arg_new_rejections :
  Arg_new (Value (VInt 3)) VNone false (Value VNone) (Mvalue VNone) false None
    = Raise (WebargsValueError (VInt 3) (VStr "%r is not callable."))
  /\ Arg_new (Value (VInt 0)) VNone false (Value VNone) (Mvalue VNone) false
       None = Ok plain_Arg
  /\ Arg_new (Value VNone) VNone false (Value VNone) (Mvalue (VBool true))
       false None
     = Raise (WebargsValueError (VBool true)
                (VStr "%r is not a list, set or None.")).
Proof. repeat split; reflexivity. Qed.

Lemma validated_idempotent_witness :
  validated (abs_Arg (Some list_)) (VList [VInt 2; VInt 3])
  = Ok (VList [VInt 2; VInt 3]).
Proof.
  apply (validated_idempotent (abs_Arg (Some list_))
           (VList [VInt (-2); VInt 3]) (VList [VInt 2; VInt 3])).
  - right. split; [reflexivity|]. by eexists.
  - reflexivity.
  - intros y Hy. simpl in Hy.
    apply elem_of_cons in Hy as [-> | Hy]; [reflexivity|].
    apply list_elem_of_singleton in Hy as ->. reflexivity.
Defined.

Lemma validated_size_witness :
  length [VInt 2; VInt 4] <= length [VInt 1; VInt 2; VInt 1].
Proof.
  destruct (validated_size (doubling_Arg (Some set_)) set_
              [VInt 1; VInt 2; VInt 1] (VSet [VInt 2; VInt 4])
              eq_refl eq_refl) as [[_ Hlen] _].
  exact Hlen.
Defined.

Lemma multi_arg_never_falls_back_witness :
  EvFallback "x"
  ∉ (parse_arg (stub_Parser VNone VNone VNone) "x"
       (doubling_Arg (Some set_)) tt None).1.
Proof.
  apply (multi_arg_never_falls_back (stub_Parser VNone VNone VNone) "x" tt
           None (Callable double) VNone false (Callable positive) set_ false
           None (doubling_Arg (Some set_)) eq_refl).
Defined.

Lemma custom_target_resolves_witness :
  parse_arg
    (target_handler (stub_Parser VNone VNone VNone) "data"
       (fun _ _ _ => Ok (VInt 3)))
    "x" plain_Arg tt (Some ["data"])
  = ([EvFetch "data" "x"], Ok (VInt 3)).
Proof.
  apply (custom_target_resolves (stub_Parser VNone VNone VNone) "data"
           (fun _ _ _ => Ok (VInt 3)) "x" plain_Arg tt (VInt 3)
           eq_refl eq_refl eq_refl).
Defined.

Lemma unregistered_pinned_target_ignored_witness :
  pinned_lookup (stub_Parser (VStr "q") VNone VNone) "x" misdirected_Arg tt
    VNone
  = ([], Ok (Next VNone)).
Proof.
  apply (unregistered_pinned_target_ignored
           (stub_Parser (VStr "q") VNone VNone) "x" misdirected_Arg tt None
           "nowhere" eq_refl).
  vm_compute. reflexivity.
Defined.

Example misdirected_falls_back_on_scan :
  parse_arg (stub_Parser (VStr "q") VNone VNone) "x" misdirected_Arg tt None
  = ([EvFetch "querystring" "x"], Ok (VStr "q")).
Proof. vm_compute. reflexivity. Qed.

Lemma base_parser_finds_nothing_witness :
  (parse_arg (Parser_init None None : Parser unit) "x" required_Arg tt
     None).2
  = Raise (MissingArg "x").
Proof.
  apply (base_parser_finds_nothing (Request := unit) None None "x"
           required_Arg tt None).
  registered_by_lookup.
Defined.

Lemma parse_success_content_witness :
  exists log parsed,
    parse (dict_Parser {["a" := VInt 1]})
      [("a", plain_Arg); ("b", optional_Arg)] tt None
    = (log, Ok (Some parsed))
    /\ parsed !! "a" = Some (VInt 1)
    /\ parsed !! "b" = None.
Proof.
  destruct (parse_success_content (dict_Parser {["a" := VInt 1]}) tt None
              [("a", plain_Arg); ("b", optional_Arg)] [VInt 1; VNone])
    as (log & parsed & Hrun & Hhere & _).
  - simpl. repeat constructor; rewrite ?elem_of_cons, ?elem_of_nil;
      intros H; by repeat destruct H as [H | H].
  - repeat constructor; vm_compute; reflexivity.
  - exists log, parsed. split; [exact Hrun|]. split.
    + exact (Hhere 0 "a" plain_Arg (VInt 1) eq_refl eq_refl).
    + exact (Hhere 1 "b" optional_Arg VNone eq_refl eq_refl).
Defined.

Lemma use_kwargs_merges_witness :
  use_kwargs (stub_Parser (VInt 1) VNone VNone) [("a", plain_Arg)] tt None
    false view_a [] {["a" := VInt 9]}
  = ([EvFetch "querystring" "a"], Ok (VInt 1)).
Proof.
  assert (Hparse :
    parse (stub_Parser (VInt 1) VNone VNone) [("a", plain_Arg)] tt
      (Some (or_targets None DEFAULT_TARGETS))
    = ([EvFetch "querystring" "a"], Ok (Some {["a" := VInt 1]})))
    by (vm_compute; reflexivity).
  destruct (use_kwargs_merges (stub_Parser (VInt 1) VNone VNone)
              [("a", plain_Arg)] tt None false view_a []
              {["a" := VInt 9]} _ _ Hparse)
    as (kwargs' & Hrun & _ & Hin & _).
  rewrite Hrun. unfold view_a.
  rewrite (Hin "a" (VInt 1)); [reflexivity|].
  vm_compute. reflexivity.
Defined.

Lemma use_kwargs_after_swallowed_error_witness :
  use_kwargs (error_handler (stub_Parser (VStr "abc") VNone VNone) swallow)
    sample_argmap tt None false view_a [] ∅
  = ([EvFetch "querystring" "a"; EvFetch "querystring" "b";
      EvErrorCallback (ConversionError (UserException "ValueError") "b")],
     Raise (TypeError "'NoneType' object is not iterable")).
Proof.
  assert (Hloop :
    parse_items (error_handler (stub_Parser (VStr "abc") VNone VNone) swallow)
      sample_argmap tt (Some (or_targets None DEFAULT_TARGETS)) ∅
    = ([EvFetch "querystring" "a"; EvFetch "querystring" "b"],
       Raise (ConversionError (UserException "ValueError") "b")))
    by (vm_compute; reflexivity).
  exact (use_kwargs_after_swallowed_error
           (error_handler (stub_Parser (VStr "abc") VNone VNone) swallow)
           sample_argmap tt None false [] ∅ _ _ swallow VNone eq_refl Hloop
           eq_refl view_a).
Defined.

Lemma use_args_positional_witness :
  use_args (stub_Parser (VInt 1) VNone VNone) [("a", plain_Arg)] tt None
    false view_position [VInt 0; VInt 7] ∅
  = ([EvFetch "querystring" "a"], Ok (VInt 0)).
Proof.
  assert (Hparse :
    parse (stub_Parser (VInt 1) VNone VNone) [("a", plain_Arg)] tt
      (Some (or_targets None DEFAULT_TARGETS))
    = ([EvFetch "querystring" "a"], Ok (Some {["a" := VInt 1]})))
    by (vm_compute; reflexivity).
  destruct (use_args_positional (stub_Parser (VInt 1) VNone VNone)
              [("a", plain_Arg)] tt None view_position [VInt 0; VInt 7] ∅
              _ _ Hparse)
    as (pos & Hrun & Hlen & Hat & _).
  rewrite Hrun. unfold view_position.
  destruct pos as [|p pos]; [discriminate Hlen|].
  simpl in Hat. injection Hat as ->. reflexivity.
Defined.

Lemma plain_container_always_found_witness :
  parse_arg (dict_Parser ∅) "x" (list_Arg false) tt None
  = ([EvFetch "querystring" "x"], Ok (VList [VNone])).
Proof.
  apply (plain_container_always_found (dict_Parser ∅) "x" (list_Arg false)
           tt None (dict_source ∅) "querystring" ["form"; "json"] list_
           VNone); try reflexivity.
  registered_by_lookup.
Defined.

Lemma pinned_ignores_multiplicity_witness :
  (parse_arg (stub_Parser VNone VNone (VList [])) "x" pinned_list_Arg tt
     None).2
  = Ok (VList []).
Proof.
  assert (Hf : fetches (stub_Parser VNone VNone (VList [])) "x"
                 pinned_list_Arg tt "json" (VList []))
    by (vm_compute; reflexivity).
  destruct (pinned_ignores_multiplicity (stub_Parser VNone VNone (VList []))
              "x" pinned_list_Arg tt None "json" list_ (VList [])
              eq_refl eq_refl Hf eq_refl)
    as (_ & Hempty & _).
  exact (Hempty eq_refl).
Defined.
